(** * Hawk JavaScript catcher: a shallow embedding of [src/catcher.ts]

    The catcher class is embedded as state-passing functions over an
    explicit browser [World] (logger sink, console, localStorage, object
    heap, sockets).  Thrown exceptions are the [Throw] completion of an
    error monad; an [async] function turns the completion of its body into
    a settled promise, and asynchronous functions run to completion one
    after the other.  The modules the class imports (socket, sanitizer,
    stack parser) and the browser built-ins it calls ([atob], [JSON.parse])
    are interfaces, given as type classes; the logger and the id generator
    are effects of the world.

    Every method of the class is embedded; [handleEvent], whose argument
    is a browser event carrying a value of any type, is in the section
    [CatcherEvents]. In the class a [beforeSend] callback is a function of
    the event; the module [Receiver] has the methods that reach the
    callback for one that uses the catcher it is called on.

    The transport core ([modules/socket]) is described by the
    specification only; it is modelled in [Module Socket]. *)

From Stdlib Require Import ZArith Lia Ascii.
From stdpp Require Import gmap strings list fin_maps pretty.

Set Default Proof Using "Type".
Set Warnings "-register-all,-notation-for-abbreviation".

(** ** JavaScript values *)

(** The result of [JSON.parse], the values of an [EventContext], and
    anything a [throw] may carry. Numbers are kept integral: no path of
    the catcher computes with them. *)
Inductive Json :=
| JNull
| JBool (b : bool)
| JNum (n : Z)
| JStr (s : string)
| JArr (items : list Json)
| JObj (props : list (string * Json)).

(** A thrown value: an [Error] object (name, message) or any other value. *)
Inductive Exn :=
| JsError (name message : string)
| JsThrown (v : Json).

(** How the evaluation of a JavaScript expression ends. *)
Inductive Completion (A : Type) :=
| Normal (a : A)
| Throw (e : Exn).
Arguments Normal {A} a.
Arguments Throw {A} e.

(** A settled promise (every asynchronous function is run to completion). *)
Inductive Promise (A : Type) :=
| Fulfilled (a : A)
| Rejected (e : Exn).
Arguments Fulfilled {A} a.
Arguments Rejected {A} e.

(** JavaScript truthiness of a string: only the empty string is falsy. *)
Definition truthy_string (s : string) : bool :=
  match s with EmptyString => false | _ => true end.

(** [x || y] and [!x] on a value that is a string or [undefined]. *)
Definition truthy_opt_string (o : option string) : bool :=
  match o with Some s => truthy_string s | None => false end.

(** Truthiness of a parsed JSON value. *)
Definition truthy (v : Json) : bool :=
  match v with
  | JNull => false
  | JBool b => b
  | JNum n => negb (Z.eqb n 0)
  | JStr s => truthy_string s
  | JArr _ | JObj _ => true
  end.

(** Own property of an object literal produced by [JSON.parse]. *)
Fixpoint lookup_prop (k : string) (props : list (string * Json)) : option Json :=
  match props with
  | [] => None
  | (k', v) :: rest => if String.eqb k k' then Some v else lookup_prop k rest
  end.

(** [v.k]: [undefined] ([None]) when absent or when [v] is a primitive or
    an array; a [TypeError] when [v] is [null]. *)
Definition get_prop (v : Json) (k : string) : Completion (option Json) :=
  match v with
  | JNull => Throw (JsError "TypeError" "Cannot read properties of null")
  | JObj props => Normal (lookup_prop k props)
  | _ => Normal None
  end.

(** ** Data model of the catcher ([hawk.types] and [types/]) *)

Record AffectedUser := {
  user_id : string;
  user_name : option string;
  user_url : option string;
  user_image : option string
}.

Record BacktraceFrame := {
  frame_file : string;
  frame_line : Z;
  frame_column : Z;
  frame_function : option string
}.

(** A JavaScript [Error] instance. *)
Record ErrorObject := {
  error_name : string;
  error_message : string;
  error_stack : option string
}.

(** The argument of [send]: [Error | string]. *)
Inductive Message :=
| MError (e : ErrorObject)
| MString (s : string).

(** [EventContext]: a plain object. *)
Notation EventContext := (gmap string Json).

(** A reference to an object of the heap. *)
Notation loc := nat (only parsing).

Record VueIntegrationAddons := {
  vue_lifecycle : string;
  vue_component : string
}.

(** [JavaScriptCatcherIntegrations]: the union has one member. *)
Inductive JavaScriptCatcherIntegrations :=
| VueIntegrationData (vue : VueIntegrationAddons).

(** The object [getRawData] builds for an [Error]. *)
Record RawEventData := {
  raw_name : string;
  raw_message : string;
  raw_stack : option string
}.

(** [JavaScriptAddons]. An absent property is [None]; [RAW_EVENT_DATA] may
    be present and [null] ([Some None]). *)
Record JavaScriptAddons := {
  addons_innerWidth : Z;
  addons_innerHeight : Z;
  addons_userAgent : string;
  addons_url : string;
  addons_get : option (gmap string (option string));
  addons_RAW_EVENT_DATA : option (option RawEventData);
  addons_vue : option VueIntegrationAddons
}.

(** [EventData<JavaScriptAddons>]. *)
Record EventData := {
  ev_title : string;
  ev_type : option string;
  ev_release : option string;
  ev_context : EventContext;
  ev_user : option AffectedUser;
  ev_addons : JavaScriptAddons;
  ev_backtrace : option (list BacktraceFrame)
}.

(** [CatcherMessage]: the envelope handed to the transport. The token is
    [None] when the catcher was built without one. *)
Record CatcherMessage := {
  msg_token : option string;
  msg_catcherType : string;
  msg_payload : EventData
}.

(** The [onClose] option of the socket. The constructor passes a closure of
    its own; [UserOnClose] stands for any function a caller could hold. *)
Inductive CloseCallback :=
| ConnectionLostNotice
| UserOnClose (name : string).

(** The options object given to [new Socket(...)]. *)
Record SocketOptions := {
  collectorEndpoint : string;
  reconnectionAttempts : option Z;
  reconnectionTimeout : option Z;
  onClose : CloseCallback
}.

(** A Vue application handed to the integration. *)
Record VueApp := { vue_app_name : string }.

(** [HawkInitialSettings]. [s_onClose] is not a declared member of the
    settings type: it stands for a property a caller may still put on the
    object; the constructor never reads it. *)
Record HawkInitialSettings := {
  s_token : option string;
  s_debug : option bool;
  s_release : option string;
  s_user : option AffectedUser;
  s_context : option loc;
  s_beforeSend : option (EventData → Completion EventData);
  s_collectorEndpoint : option string;
  s_reconnectionAttempts : option Z;
  s_reconnectionTimeout : option Z;
  s_disableGlobalErrorsHandling : option bool;
  s_vue : option VueApp;
  s_onClose : option CloseCallback
}.

(** The constructor's parameter: [HawkInitialSettings | string]. *)
Inductive SettingsArg :=
| SettingsToken (token : string)
| SettingsObject (settings : HawkInitialSettings).

(** The catcher instance. Every field is [readonly] in the source, which
    holds for the code of the class; the transport is a reference to the
    socket object of the world. The field [beforeSend] holds a callback that
    is a function of the event, as its type in the source says; a callback
    that uses the catcher it is called on is a [Method] of the module
    [Receiver] below. *)
Record Catcher := {
  version : string;
  type : string;
  token : option string;
  debug : bool;
  release : option string;
  user : option AffectedUser;
  context : option loc;
  beforeSend : option (EventData → Completion EventData);
  transport : option nat
}.

(** ** The world the catcher runs in *)

Inductive LogLevel := LogInfo | LogWarn | LogError.

(** One call of [log(message, type, args)] of [modules/logger]. *)
Record LogEntry := {
  log_message : string;
  log_level : LogLevel;
  log_args : option Exn
}.

(** One call on [localStorage]. *)
Inductive StorageOp :=
| GetItem (key : string)
| SetItem (key value : string).

(** What the catcher reads from [window]. *)
Record Window := {
  innerWidth : Z;
  innerHeight : Z;
  userAgent : string;
  location_href : string;
  location_search : string
}.

(** The state outside the catcher instance, for a socket state type [T]:
    - [logs], [console]: what was logged, oldest first;
    - [storage], [storageOps]: localStorage and the calls made on it;
    - [randomIds], [randomUsed]: the ids [generateRandomId] hands out;
    - [heap]: the context objects, a reference is an index;
    - [sockets], [socketsCreated]: the socket objects and the options each
      was constructed with;
    - [listeners], [vueApps]: registered global handlers and Vue apps. *)
Record World (T : Type) := {
  logs : list LogEntry;
  console : list CatcherMessage;
  storage : gmap string string;
  storageOps : list StorageOp;
  randomIds : nat → string;
  randomUsed : nat;
  heap : list EventContext;
  sockets : list T;
  socketsCreated : list SocketOptions;
  listeners : list string;
  vueApps : list VueApp;
  window : Window
}.
Arguments logs {T} w.
Arguments console {T} w.
Arguments storage {T} w.
Arguments storageOps {T} w.
Arguments randomIds {T} w.
Arguments randomUsed {T} w.
Arguments heap {T} w.
Arguments sockets {T} w.
Arguments socketsCreated {T} w.
Arguments listeners {T} w.
Arguments vueApps {T} w.
Arguments window {T} w.

(** ** Interfaces of the imported modules and built-ins *)

(** [modules/socket]: construction and [send], which returns a promise and
    may, like any call, throw. *)
Class Transport (T : Type) := {
  socket_new : SocketOptions → T;
  socket_send : CatcherMessage → T → Completion (Promise unit) * T
}.

(** Browser built-ins and the build constant. [to_string] is the string
    conversion of a template literal for a value that is not a string. *)
Class Platform := {
  atob : string → Completion string;
  JSON_parse : string → Completion Json;
  to_string : Json → string;
  VERSION : string
}.

(** [modules/sanitizer] and [modules/stackParser]. The parser's promise is
    given by how it settles. *)
Class Modules := {
  sanitize : EventContext → Completion EventContext;
  stackParser_parse : ErrorObject → Promise (list BacktraceFrame)
}.

(** ** Exceptions and state *)

(** A computation reads and updates a state [W] and completes normally or
    by a throw. *)
Definition M (W A : Type) : Type := W → Completion A * W.

Definition ret {W A} (a : A) : M W A := λ w, (Normal a, w).

Definition throw {W A} (e : Exn) : M W A := λ w, (Throw e, w).

Definition bind {W A B} (m : M W A) (k : A → M W B) : M W B :=
  λ w, match m w with
       | (Normal a, w') => k a w'
       | (Throw e, w') => (Throw e, w')
       end.

Definition lift {W A} (c : Completion A) : M W A := λ w, (c, w).

(** [try { m } catch (e) { h e }]. *)
Definition try_catch {W A} (m : M W A) (h : Exn → M W A) : M W A :=
  λ w, match m w with
       | (Normal a, w') => (Normal a, w')
       | (Throw e, w') => h e w'
       end.

(** Calling an [async] function never throws: the completion of the body
    settles the returned promise. *)
Definition async {W A} (body : M W A) : M W (Promise A) :=
  λ w, match body w with
       | (Normal a, w') => (Normal (Fulfilled a), w')
       | (Throw e, w') => (Normal (Rejected e), w')
       end.

(** [await p]: the value of a fulfilled promise, a throw of the reason of
    a rejected one. *)
Definition await {W A} (p : Promise A) : M W A :=
  match p with
  | Fulfilled a => ret a
  | Rejected e => throw e
  end.

(** [p.catch(h)]: the handler runs on a rejection only; the promise the
    call returns is the outcome of the handler. *)
Definition promise_catch {W A} (p : Promise A) (h : Exn → M W A) : M W (Promise A) :=
  match p with
  | Fulfilled a => ret (Fulfilled a)
  | Rejected e => async (h e)
  end.

Notation "'let!' x ':=' m 'in' k" := (bind m (λ x, k))
  (at level 10, x name, m at level 100, k at level 200).
Notation "m >> k" := (bind m (λ _, k))
  (at level 100, k at level 200, right associativity).

(** ** The catcher class *)

Section CatcherClass.
Context {T : Type} `{!Transport T} `{!Platform} `{!Modules}.

Notation M := (M (World T)).

(** *** Effects of the world *)

(** The world with one of its parts replaced. *)
Definition with_logs (w : World T) (l : list LogEntry) : World T :=
  {| logs := l; console := console w; storage := storage w;
     storageOps := storageOps w; randomIds := randomIds w;
     randomUsed := randomUsed w; heap := heap w; sockets := sockets w;
     socketsCreated := socketsCreated w; listeners := listeners w;
     vueApps := vueApps w; window := window w |}.

Definition with_console (w : World T) (c : list CatcherMessage) : World T :=
  {| logs := logs w; console := c; storage := storage w;
     storageOps := storageOps w; randomIds := randomIds w;
     randomUsed := randomUsed w; heap := heap w; sockets := sockets w;
     socketsCreated := socketsCreated w; listeners := listeners w;
     vueApps := vueApps w; window := window w |}.

Definition with_storage (w : World T) (s : gmap string string)
    (ops : list StorageOp) : World T :=
  {| logs := logs w; console := console w; storage := s;
     storageOps := ops; randomIds := randomIds w;
     randomUsed := randomUsed w; heap := heap w; sockets := sockets w;
     socketsCreated := socketsCreated w; listeners := listeners w;
     vueApps := vueApps w; window := window w |}.

Definition with_randomUsed (w : World T) (n : nat) : World T :=
  {| logs := logs w; console := console w; storage := storage w;
     storageOps := storageOps w; randomIds := randomIds w;
     randomUsed := n; heap := heap w; sockets := sockets w;
     socketsCreated := socketsCreated w; listeners := listeners w;
     vueApps := vueApps w; window := window w |}.

Definition with_heap (w : World T) (h : list EventContext) : World T :=
  {| logs := logs w; console := console w; storage := storage w;
     storageOps := storageOps w; randomIds := randomIds w;
     randomUsed := randomUsed w; heap := h; sockets := sockets w;
     socketsCreated := socketsCreated w; listeners := listeners w;
     vueApps := vueApps w; window := window w |}.

Definition with_sockets (w : World T) (s : list T)
    (created : list SocketOptions) : World T :=
  {| logs := logs w; console := console w; storage := storage w;
     storageOps := storageOps w; randomIds := randomIds w;
     randomUsed := randomUsed w; heap := heap w; sockets := s;
     socketsCreated := created; listeners := listeners w;
     vueApps := vueApps w; window := window w |}.

Definition with_listeners (w : World T) (l : list string) : World T :=
  {| logs := logs w; console := console w; storage := storage w;
     storageOps := storageOps w; randomIds := randomIds w;
     randomUsed := randomUsed w; heap := heap w; sockets := sockets w;
     socketsCreated := socketsCreated w; listeners := l;
     vueApps := vueApps w; window := window w |}.

Definition with_vueApps (w : World T) (l : list VueApp) : World T :=
  {| logs := logs w; console := console w; storage := storage w;
     storageOps := storageOps w; randomIds := randomIds w;
     randomUsed := randomUsed w; heap := heap w; sockets := sockets w;
     socketsCreated := socketsCreated w; listeners := listeners w;
     vueApps := l; window := window w |}.

(** [log(message, type, args)] of [modules/logger], which is not among the
    sources: the call is recorded, and is taken not to throw. *)
Definition log (message : string) (level : LogLevel) (args : option Exn) : M unit :=
  λ w, (Normal tt,
        with_logs w (logs w ++ [{| log_message := message; log_level := level;
                                   log_args := args |}])).

(** [console.log('send', errorFormatted)]. *)
Definition console_log (m : CatcherMessage) : M unit :=
  λ w, (Normal tt, with_console w (console w ++ [m])).

(** [localStorage.getItem(key)]: [null] is [None]. *)
Definition localStorage_getItem (key : string) : M (option string) :=
  λ w, (Normal (storage w !! key),
        with_storage w (storage w) (storageOps w ++ [GetItem key])).

(** [localStorage.setItem(key, value)]. *)
Definition localStorage_setItem (key value : string) : M unit :=
  λ w, (Normal tt,
        with_storage w (<[key := value]> (storage w))
                     (storageOps w ++ [SetItem key value])).

(** [generateRandomId()] of [utils], which is not among the sources: the
    next id of the world's supply, whatever that supply is. *)
Definition generateRandomId : M string :=
  λ w, (Normal (randomIds w (randomUsed w)), with_randomUsed w (S (randomUsed w))).

(** The object a reference points to. *)
Definition heap_read (w : World T) (l : loc) : EventContext :=
  default ∅ (heap w !! l).

(** [{}]: a new empty object. *)
Definition new_object : M loc :=
  λ w, (Normal (length (heap w)), with_heap w (heap w ++ [∅])).

(** [Object.assign(target, source)]: every property of [source] is assigned
    to the object [target] points to, over a property of the same name. The
    assignment of a property named [__proto__] runs the prototype setter
    the target inherits and gives the target no property; the setter takes
    an object or [null] for the prototype of the target and ignores another
    value. The targets of the class are object literals; their prototype is
    not part of the state. *)
Definition Object_assign (target source : loc) : M unit :=
  λ w, (Normal tt,
        with_heap w (<[target := delete "__proto__" (heap_read w source)
                                  ∪ heap_read w target]> (heap w))).

(** [new Socket(options)]. *)
Definition new_Socket (options : SocketOptions) : M nat :=
  λ w, (Normal (length (sockets w)),
        with_sockets w (sockets w ++ [socket_new options])
                     (socketsCreated w ++ [options])).

(** [socket.send(message)] on the socket a reference points to. *)
Definition Socket_send (ref : nat) (m : CatcherMessage) : M (Promise unit) :=
  λ w, match sockets w !! ref with
       | Some s =>
           let (r, s') := socket_send m s in
           (r, with_sockets w (<[ref := s']> (sockets w)) (socketsCreated w))
       | None => (Throw (JsError "TypeError" "Cannot read properties of undefined"), w)
       end.

(** [window.addEventListener(name, handler)]. *)
Definition addEventListener (name : string) : M unit :=
  λ w, (Normal tt, with_listeners w (listeners w ++ [name])).

(** [new VueIntegration(vue, callback)]. *)
Definition new_VueIntegration (vue : VueApp) : M unit :=
  λ w, (Normal tt, with_vueApps w (vueApps w ++ [vue])).

(** *** Methods of the class *)

(** Generates the user when the settings give none, and stores the
    generated id for later page loads. *)
Definition getGeneratedUser : M AffectedUser :=
  let LOCAL_STORAGE_KEY := "hawk-user-id" in
  let! storedId := localStorage_getItem LOCAL_STORAGE_KEY in
  let! userId :=
    (if truthy_opt_string storedId
     then ret (default "" storedId)
     else
       let! generated := generateRandomId in
       localStorage_setItem LOCAL_STORAGE_KEY generated >>
       ret generated) in
  ret {| user_id := userId; user_name := None; user_url := None;
         user_image := None |}.

(** The event title: the string itself, or the message of the error. *)
Definition getTitle (error : Message) : string :=
  match error with
  | MString s => s
  | MError e => error_message e
  end.

(** The event type: [null] for a string, the name of the error otherwise. *)
Definition getType (error : Message) : option string :=
  match error with
  | MString _ => None
  | MError e => Some (error_name e)
  end.

(** [this.release || null]. *)
Definition getRelease (c : Catcher) : option string :=
  if truthy_opt_string (release c) then release c else None.

(** The template literal's conversion of a value to a string. *)
Definition template_string (v : Json) : string :=
  match v with
  | JStr s => s
  | _ => to_string v
  end.

(** The integration id of the integration token. *)
Definition getIntegrationId (c : Catcher) : M Json :=
  let! raw := lift (atob (default "undefined" (token c))) in
  let! decodedIntegrationToken := lift (JSON_parse raw) in
  let! integrationId := lift (get_prop decodedIntegrationToken "integrationId") in
  match integrationId with
  | Some v =>
      if truthy v then ret v
      else throw (JsError "Error" "Invalid integration token. There is no integration ID.")
  | None => throw (JsError "Error" "Invalid integration token. There is no integration ID.")
  end.

(** The context of the instance overridden by the context of the call,
    merged into a new object and sanitized. *)
Definition getContext (c : Catcher) (ctx : option loc) : M EventContext :=
  let! contextMerged := new_object in
  (match context c with
   | Some l => Object_assign contextMerged l
   | None => ret tt
   end) >>
  (match ctx with
   | Some l => Object_assign contextMerged l
   | None => ret tt
   end) >>
  let! merged := (λ w, (Normal (heap_read w contextMerged), w)) in
  lift (sanitize merged).

(** [this.user || null]. *)
Definition getUser (c : Catcher) : option AffectedUser := user c.

(** [s.substr(1)]. *)
Definition substr1 (s : string) : string :=
  match s with
  | EmptyString => ""
  | String _ rest => rest
  end.

(** [s.split(sep)] for a separator of one character. *)
Fixpoint split_on (sep : Ascii.ascii) (s : string) : list string :=
  match s with
  | EmptyString => [""]
  | String ch rest =>
      if Ascii.eqb ch sep then "" :: split_on sep rest
      else match split_on sep rest with
           | x :: xs => String ch x :: xs
           | [] => [String ch ""]
           end
  end.

(** [accumulator[key] = value] on the object literal of [getGetParams],
    for a value that is a string or [undefined]: the prototype setter
    behind the key [__proto__] ignores such a value, and no property is
    made. *)
Definition assignParam (accumulator : gmap string (option string)) (key : string)
    (value : option string) : gmap string (option string) :=
  if decide (key = "__proto__") then accumulator else <[key := value]> accumulator.

(** One step of the [reduce] of [getGetParams]:
    [const [key, value] = pair.split('='); accumulator[key] = value]. *)
Definition addGetParam (accumulator : gmap string (option string)) (pair : string)
    : gmap string (option string) :=
  match split_on "="%char pair with
  | key :: value :: _ => assignParam accumulator key (Some value)
  | [key] => assignParam accumulator key None
  | [] => accumulator
  end.

(** The parameters of the query string, [null] when there are none. *)
Definition getGetParams : M (option (gmap string (option string))) :=
  λ w,
    let searchString := substr1 (location_search (window w)) in
    if truthy_string searchString
    then (Normal (Some (fold_left addGetParam (split_on "&"%char searchString) ∅)), w)
    else (Normal None, w).

(** The raw data of the event: [null] unless the event is an [Error]. *)
Definition getRawData (error : Message) : option RawEventData :=
  match error with
  | MError e => Some {| raw_name := error_name e; raw_message := error_message e;
                        raw_stack := error_stack e |}
  | MString _ => None
  end.

(** Details of the page the event occurred on. *)
Definition getAddons (c : Catcher) (error : Message) : M JavaScriptAddons :=
  let! win := (λ w, (Normal (window w), w)) in
  let! getParams := getGetParams in
  ret {| addons_innerWidth := innerWidth win;
         addons_innerHeight := innerHeight win;
         addons_userAgent := userAgent win;
         addons_url := location_href win;
         addons_get := getParams;
         addons_RAW_EVENT_DATA := if debug c then Some (getRawData error) else None;
         addons_vue := None |}.

(** The parsed backtrace: [null] for a string, and [null], after a warning,
    when the parser fails. *)
Definition getBacktrace (c : Catcher) (error : Message)
    : M (Promise (option (list BacktraceFrame))) :=
  async
    match error with
    | MString _ => ret None
    | MError e =>
        try_catch
          (let! frames := await (stackParser_parse e) in ret (Some frames))
          (λ ex, log "Can not parse stack:" LogWarn (Some ex) >> ret None)
    end.

(** Formats the event, with a [beforeSend] that is a function of the
    event. *)
Definition prepareErrorFormatted (c : Catcher) (error : Message) (ctx : option loc)
    : M (Promise CatcherMessage) :=
  async
    (let title := getTitle error in
     let type_ := getType error in
     let release_ := getRelease c in
     let! context_ := getContext c ctx in
     let user_ := getUser c in
     let! addons := getAddons c error in
     let! backtrace := (let! p := getBacktrace c error in await p) in
     let payload := {| ev_title := title; ev_type := type_; ev_release := release_;
                       ev_context := context_; ev_user := user_; ev_addons := addons;
                       ev_backtrace := backtrace |} in
     let! payload :=
       (match beforeSend c with
        | Some filter => lift (filter payload)
        | None => ret payload
        end) in
     ret {| msg_token := token c; msg_catcherType := type c; msg_payload := payload |}).

(** [Object.assign(errorFormatted.payload.addons, integrationAddons)]. *)
Definition appendIntegrationAddons (errorFormatted : CatcherMessage)
    (integrationAddons : JavaScriptCatcherIntegrations) : CatcherMessage :=
  let payload := msg_payload errorFormatted in
  let addons := ev_addons payload in
  match integrationAddons with
  | VueIntegrationData vue =>
      {| msg_token := msg_token errorFormatted;
         msg_catcherType := msg_catcherType errorFormatted;
         msg_payload :=
           {| ev_title := ev_title payload; ev_type := ev_type payload;
              ev_release := ev_release payload; ev_context := ev_context payload;
              ev_user := ev_user payload;
              ev_addons :=
                {| addons_innerWidth := addons_innerWidth addons;
                   addons_innerHeight := addons_innerHeight addons;
                   addons_userAgent := addons_userAgent addons;
                   addons_url := addons_url addons;
                   addons_get := addons_get addons;
                   addons_RAW_EVENT_DATA := addons_RAW_EVENT_DATA addons;
                   addons_vue := Some vue |};
              ev_backtrace := ev_backtrace payload |} |}
  end.

(** Sends the formatted event to the collector. Without a transport the
    member access [this.transport.send] is a [TypeError]. *)
Definition sendErrorFormatted (c : Catcher) (errorFormatted : CatcherMessage) : M unit :=
  console_log errorFormatted >>
  match transport c with
  | None => throw (JsError "TypeError" "Cannot read properties of undefined")
  | Some ref =>
      let! sending := Socket_send ref errorFormatted in
      let! _ := promise_catch sending
                  (λ sendingError, log "WebSocket sending error" LogError (Some sendingError)) in
      ret tt
  end.

(** Formats an error and sends it. *)
Definition formatAndSend (c : Catcher) (error : Message)
    (integrationAddons : option JavaScriptCatcherIntegrations) (ctx : option loc)
    : M (Promise unit) :=
  async
    (try_catch
       (let! errorFormatted := (let! p := prepareErrorFormatted c error ctx in await p) in
        let errorFormatted :=
          match integrationAddons with
          | Some addons => appendIntegrationAddons errorFormatted addons
          | None => errorFormatted
          end in
        sendErrorFormatted c errorFormatted)
       (λ formattingError,
          log "Internal error ლ(´ڡ`ლ)" LogError (Some formattingError))).

(** The public method: the promise of [formatAndSend] is dropped. *)
Definition send (c : Catcher) (message : Message) (ctx : option loc) : M unit :=
  let! _ := formatAndSend c message None ctx in ret tt.

(** Sends a test event; [stack] is the stack the engine gives the new
    [Error]. *)
Definition test (c : Catcher) (stack : option string) : M unit :=
  let fakeEvent := {| error_name := "Error";
                      error_message := "Hawk JavaScript Catcher test message.";
                      error_stack := stack |} in
  send c (MError fakeEvent) None.


(** Adds error handling to a Vue app. *)
Definition connectVue (c : Catcher) (vue : VueApp) : M unit :=
  new_VueIntegration vue.

(** Registers the two global handlers. *)
Definition initGlobalHandlers (c : Catcher) : M unit :=
  addEventListener "error" >>
  addEventListener "unhandledrejection".

(** The settings the constructor works with: a string is a token. *)
Definition normalizeSettings (arg : SettingsArg) : HawkInitialSettings :=
  match arg with
  | SettingsToken t =>
      {| s_token := Some t; s_debug := None; s_release := None; s_user := None;
         s_context := None; s_beforeSend := None; s_collectorEndpoint := None;
         s_reconnectionAttempts := None; s_reconnectionTimeout := None;
         s_disableGlobalErrorsHandling := None; s_vue := None; s_onClose := None |}
  | SettingsObject s => s
  end.

(** The instance with its transport set. *)
Definition with_transport (c : Catcher) (ref : nat) : Catcher :=
  {| version := version c; type := type c; token := token c; debug := debug c;
     release := release c; user := user c; context := context c;
     beforeSend := beforeSend c; transport := Some ref |}.

(** The catcher constructor. *)
Definition constructor (arg : SettingsArg) : M Catcher :=
  let settings := normalizeSettings arg in
  let! user_ :=
    (match s_user settings with
     | Some u => ret u
     | None => getGeneratedUser
     end) in
  let this :=
    {| version := VERSION;
       type := "errors/javascript";
       token := s_token settings;
       debug := default false (s_debug settings);
       release := s_release settings;
       user := Some user_;
       context := s_context settings;
       beforeSend := s_beforeSend settings;
       transport := None |} in
  if negb (truthy_opt_string (token this))
  then
    log "Integration Token is missed. You can get it on https://hawk.so at Project Settings."
        LogWarn None >>
    ret this
  else
    let! endpoint :=
      (if truthy_opt_string (s_collectorEndpoint settings)
       then ret (default "" (s_collectorEndpoint settings))
       else
         let! integrationId := getIntegrationId this in
         ret ("wss://" +:+ template_string integrationId +:+ ".k1.hawk.so:443/ws")) in
    let! ref := new_Socket
      {| collectorEndpoint := endpoint;
         reconnectionAttempts := s_reconnectionAttempts settings;
         reconnectionTimeout := s_reconnectionTimeout settings;
         onClose := ConnectionLostNotice |} in
    let this := with_transport this ref in
    (if negb (default false (s_disableGlobalErrorsHandling settings))
     then initGlobalHandlers this
     else ret tt) >>
    (match s_vue settings with
     | Some vue => connectVue this vue
     | None => ret tt
     end) >>
    ret this.

(** The body of the closure the constructor passes as [onClose]
    ([ConnectionLostNotice]). *)
Definition connectionLostNotice : M unit :=
  log "Connection lost. Connection will be restored when new errors occurred"
      LogInfo None.

(** A call [options.onClose()]: the closure of the constructor runs its
    body; what a function of the caller's does is given by [callers]. *)
Definition callOnClose (callers : string → M unit) (callback : CloseCallback) : M unit :=
  match callback with
  | ConnectionLostNotice => connectionLostNotice
  | UserOnClose name => callers name
  end.

End CatcherClass.

(** ** What the methods compute

    The functions of this section say, without the monad, what a method
    returns and what it leaves of the world; the lemmas that relate each of
    them to the method it describes are proved below. *)

Section CatcherSummary.
Context {T : Type} `{!Transport T} `{!Platform} `{!Modules}.

Notation M := (M (World T)).

(** [m] does not change what [f] reads of the world. *)
Definition preserves {X A} (f : World T → X) (m : M A) : Prop :=
  ∀ w, f (snd (m w)) = f w.

(** The object a context argument stands for: none is the empty object. *)
Definition contextOf (w : World T) (ref : option loc) : EventContext :=
  match ref with
  | Some l => heap_read w l
  | None => ∅
  end.

(** The entries of the instance context overridden by those of the call;
    an entry named [__proto__] is in neither part. *)
Definition mergedContext (c : Catcher) (ctx : option loc) (w : World T) : EventContext :=
  delete "__proto__" (contextOf w ctx) ∪ delete "__proto__" (contextOf w (context c)).

(** The backtrace of an event, and the warning logged when the parser
    fails. *)
Definition backtraceOf (error : Message) : option (list BacktraceFrame) * list LogEntry :=
  match error with
  | MString _ => (None, [])
  | MError e =>
      match stackParser_parse e with
      | Fulfilled frames => (Some frames, [])
      | Rejected ex =>
          (None, [{| log_message := "Can not parse stack:"; log_level := LogWarn;
                     log_args := Some ex |}])
      end
  end.

(** The query parameters of a page. *)
Definition getParamsOf (win : Window) : option (gmap string (option string)) :=
  if truthy_string (substr1 (location_search win))
  then Some (fold_left addGetParam (split_on "&"%char (substr1 (location_search win))) ∅)
  else None.

(** The addons of an event on a page. *)
Definition addonsOf (c : Catcher) (error : Message) (win : Window) : JavaScriptAddons :=
  {| addons_innerWidth := innerWidth win;
     addons_innerHeight := innerHeight win;
     addons_userAgent := userAgent win;
     addons_url := location_href win;
     addons_get := getParamsOf win;
     addons_RAW_EVENT_DATA := if debug c then Some (getRawData error) else None;
     addons_vue := None |}.

(** The payload the catcher builds, before the [beforeSend] filter. *)
Definition payloadOf (c : Catcher) (error : Message) (sanitized : EventContext)
    (win : Window) : EventData :=
  {| ev_title := getTitle error; ev_type := getType error; ev_release := getRelease c;
     ev_context := sanitized; ev_user := getUser c;
     ev_addons := addonsOf c error win;
     ev_backtrace := fst (backtraceOf error) |}.

(** The [beforeSend] filter, when there is one. *)
Definition applyBeforeSend (filter : option (EventData → Completion EventData))
    (payload : EventData) : Completion EventData :=
  match filter with
  | Some f => f payload
  | None => Normal payload
  end.

(** How the promise of [prepareErrorFormatted] settles for a merged
    context and a page, and what is logged on the way. *)
Definition formatting (c : Catcher) (error : Message) (merged : EventContext)
    (win : Window) : Promise CatcherMessage * list LogEntry :=
  match sanitize merged with
  | Throw e => (Rejected e, [])
  | Normal sanitized =>
      (match applyBeforeSend (beforeSend c) (payloadOf c error sanitized win) with
       | Normal payload =>
           Fulfilled {| msg_token := token c; msg_catcherType := type c;
                        msg_payload := payload |}
       | Throw e => Rejected e
       end,
       snd (backtraceOf error))
  end.

(** The world after formatting: one more object, and the new log entries. *)
Definition afterFormatting (w : World T) (merged : EventContext)
    (entries : list LogEntry) : World T :=
  with_logs (with_heap w (heap w ++ [merged])) (logs w ++ entries).

(** The entry [formatAndSend] logs for an error it caught. *)
Definition internalError (e : Exn) : LogEntry :=
  {| log_message := "Internal error ლ(´ڡ`ლ)"; log_level := LogError;
     log_args := Some e |}.

Definition withAddons (m : CatcherMessage)
    (addons : option JavaScriptCatcherIntegrations) : CatcherMessage :=
  match addons with
  | Some a => appendIntegrationAddons m a
  | None => m
  end.

(** The world after a call of [formatAndSend]. *)
Definition afterFormatAndSend (c : Catcher) (error : Message)
    (addons : option JavaScriptCatcherIntegrations) (ctx : option loc)
    (w : World T) : World T :=
  let merged := mergedContext c ctx w in
  let w1 := afterFormatting w merged (snd (formatting c error merged (window w))) in
  match fst (formatting c error merged (window w)) with
  | Rejected e => with_logs w1 (logs w1 ++ [internalError e])
  | Fulfilled m =>
      match sendErrorFormatted c (withAddons m addons) w1 with
      | (Normal _, w2) => w2
      | (Throw e, w2) => with_logs w2 (logs w2 ++ [internalError e])
      end
  end.

(** What the catcher can observe of a world besides the logs and the heap. *)
Definition observable (w : World T) :=
  (console w, storage w, storageOps w, randomIds w, randomUsed w,
   sockets w, socketsCreated w, listeners w, vueApps w, window w).

(** Two worlds with the same first [n] objects and the same observable
    part. *)
Definition agree (n : nat) (w w' : World T) : Prop :=
  n ≤ length (heap w) ∧ n ≤ length (heap w') ∧
  (∀ l, l < n → heap w' !! l = heap w !! l) ∧
  observable w' = observable w.


(** The user of a catcher built without one, and the world after
    [getGeneratedUser]. *)
Definition generatedUser (w : World T) : AffectedUser * World T :=
  if truthy_opt_string (storage w !! "hawk-user-id")
  then ({| user_id := default "" (storage w !! "hawk-user-id"); user_name := None;
           user_url := None; user_image := None |},
        with_storage w (storage w) (storageOps w ++ [GetItem "hawk-user-id"]))
  else ({| user_id := randomIds w (randomUsed w); user_name := None;
           user_url := None; user_image := None |},
        with_storage (with_randomUsed w (S (randomUsed w)))
          (<[ "hawk-user-id" := randomIds w (randomUsed w) ]> (storage w))
          ((storageOps w ++ [GetItem "hawk-user-id"])
             ++ [SetItem "hawk-user-id" (randomIds w (randomUsed w))])).

(** The user of the instance and the world after the constructor has set
    its fields. *)
Definition userStep (settings : HawkInitialSettings) (w : World T)
    : AffectedUser * World T :=
  match s_user settings with
  | Some u => (u, w)
  | None => generatedUser w
  end.

(** The instance before its transport is set. *)
Definition instanceOf (settings : HawkInitialSettings) (u : AffectedUser) : Catcher :=
  {| version := VERSION; type := "errors/javascript"; token := s_token settings;
     debug := default false (s_debug settings); release := s_release settings;
     user := Some u; context := s_context settings;
     beforeSend := s_beforeSend settings; transport := None |}.

(** The integration id of a token. *)
Definition integrationIdOf (tok : option string) : Completion Json :=
  match atob (default "undefined" tok) with
  | Throw e => Throw e
  | Normal raw =>
      match JSON_parse raw with
      | Throw e => Throw e
      | Normal decoded =>
          match get_prop decoded "integrationId" with
          | Throw e => Throw e
          | Normal (Some v) =>
              if truthy v then Normal v
              else Throw (JsError "Error"
                            "Invalid integration token. There is no integration ID.")
          | Normal None =>
              Throw (JsError "Error"
                       "Invalid integration token. There is no integration ID.")
          end
      end
  end.

(** The endpoint the constructor gives the socket. *)
Definition endpointOf (settings : HawkInitialSettings) : Completion string :=
  if truthy_opt_string (s_collectorEndpoint settings)
  then Normal (default "" (s_collectorEndpoint settings))
  else match integrationIdOf (s_token settings) with
       | Normal integrationId =>
           Normal ("wss://" +:+ template_string integrationId +:+ ".k1.hawk.so:443/ws")
       | Throw e => Throw e
       end.

(** The options the constructor gives the socket. *)
Definition socketOptionsOf (settings : HawkInitialSettings) (endpoint : string)
    : SocketOptions :=
  {| collectorEndpoint := endpoint;
     reconnectionAttempts := s_reconnectionAttempts settings;
     reconnectionTimeout := s_reconnectionTimeout settings;
     onClose := ConnectionLostNotice |}.

(** The world after the transport is set up. *)
Definition afterTransport (settings : HawkInitialSettings) (options : SocketOptions)
    (w : World T) : World T :=
  let w2 := with_sockets w (sockets w ++ [socket_new options])
                         (socketsCreated w ++ [options]) in
  let w3 := if negb (default false (s_disableGlobalErrorsHandling settings))
            then with_listeners w2 ((listeners w2 ++ ["error"]) ++ ["unhandledrejection"])
            else w2 in
  match s_vue settings with
  | Some vue => with_vueApps w3 (vueApps w3 ++ [vue])
  | None => w3
  end.

Definition tokenMissing : LogEntry :=
  {| log_message :=
       "Integration Token is missed. You can get it on https://hawk.so at Project Settings.";
     log_level := LogWarn; log_args := None |}.

End CatcherSummary.

(** ** Global events *)

(** What a browser event carries as its error or as the reason of a
    rejection: [undefined], [null], an [Error] or a string. *)
Inductive EventValue :=
| EvUndefined
| EvNull
| EvValue (m : Message).

(** The argument of [handleEvent]: [ErrorEvent | PromiseRejectionEvent]. *)
Inductive WindowEvent :=
| ErrorEvent (error : EventValue) (message : string)
| PromiseRejectionEvent (reason : EventValue).

(** Truthiness of such a value: an [Error] is truthy, a string unless it is
    empty. *)
Definition truthy_value (v : EventValue) : bool :=
  match v with
  | EvUndefined | EvNull => false
  | EvValue (MError _) => true
  | EvValue (MString s) => truthy_string s
  end.

(** [a || b]. *)
Definition or_value (a b : EventValue) : EventValue :=
  if truthy_value a then a else b.

(** [event.error]: a rejection event has no such property. *)
Definition event_error (event : WindowEvent) : EventValue :=
  match event with
  | ErrorEvent error _ => error
  | PromiseRejectionEvent _ => EvUndefined
  end.

(** [event.reason]: an error event has no such property. *)
Definition event_reason (event : WindowEvent) : EventValue :=
  match event with
  | ErrorEvent _ _ => EvUndefined
  | PromiseRejectionEvent reason => reason
  end.

(** Whether a character occurs in a string. *)
Fixpoint occurs (ch : Ascii.ascii) (s : string) : bool :=
  match s with
  | EmptyString => false
  | String ch' rest => Ascii.eqb ch' ch || occurs ch rest
  end.

(** The key and the value [getGetParams] takes from a pair:
    [const [key, value] = pair.split('=')]. *)
Definition pairKey (pair : string) : string :=
  default "" (head (split_on "="%char pair)).

Definition pairValue (pair : string) : option string :=
  split_on "="%char pair !! 1.

Section CatcherEvents.
Context {T : Type} `{!Transport T} `{!Platform} `{!Modules}.

Notation M := (M (World T)).

(** [prepareErrorFormatted] on a value of an event. For [undefined] and
    [null] the first property of the payload, [this.getTitle(error)], is
    where it ends: [error.toString()] is a [TypeError]. *)
Definition prepareErrorFormattedValue (c : Catcher) (error : EventValue)
    (ctx : option loc) : M (Promise CatcherMessage) :=
  match error with
  | EvValue m => prepareErrorFormatted c m ctx
  | EvUndefined => async (throw (JsError "TypeError" "Cannot read properties of undefined"))
  | EvNull => async (throw (JsError "TypeError" "Cannot read properties of null"))
  end.

(** [formatAndSend] on a value of an event. *)
Definition formatAndSendValue (c : Catcher) (error : EventValue)
    (integrationAddons : option JavaScriptCatcherIntegrations) (ctx : option loc)
    : M (Promise unit) :=
  async
    (try_catch
       (let! errorFormatted :=
          (let! p := prepareErrorFormattedValue c error ctx in await p) in
        let errorFormatted :=
          match integrationAddons with
          | Some addons => appendIntegrationAddons errorFormatted addons
          | None => errorFormatted
          end in
        sendErrorFormatted c errorFormatted)
       (λ formattingError,
          log "Internal error ლ(´ڡ`ლ)" LogError (Some formattingError))).

(** Handles an error event or a promise rejection and sends it. *)
Definition handleEvent (c : Catcher) (event : WindowEvent) : M (Promise unit) :=
  async
    (let error := or_value (event_error event) (event_reason event) in
     let error :=
       match event, error with
       | ErrorEvent _ message, EvUndefined => EvValue (MString message)
       | _, _ => error
       end in
     let! _ := formatAndSendValue c error None None in
     ret tt).

End CatcherEvents.

(** ** Callbacks and their receiver *)

(** [this.beforeSend(payload)] as JavaScript runs it. The callback is called
    on the catcher, whose fields it can read and assign: [private] and
    [readonly] are checked when the program is compiled, and are absent
    when it runs. The payload holds the user object of the catcher itself,
    so that a write through [event.user] is a write to the user of the
    catcher. A call gives its completion and the catcher as the call leaves
    it. *)
Definition Method : Type := Catcher → EventData → Completion EventData * Catcher.

(** The callback that is a function of the event and leaves its receiver
    as it is. *)
Definition methodOf (filter : EventData → Completion EventData) : Method :=
  λ this payload, (filter payload, this).

(** The methods of the class that reach [beforeSend], on a state that holds
    the catcher with the page. [method] is the value of [this.beforeSend],
    which the constructor takes from the settings and no method of the
    class assigns; with [methodOf] of the field [beforeSend] these methods
    are the ones of the class above. Each call runs to its end. *)
Module Receiver.
Section Methods.
Context {T : Type} `{!Transport T} `{!Platform} `{!Modules}.

Notation MT := (M (Catcher * World T)).

(** [this]. *)
Definition this : MT Catcher := λ s, (Normal (fst s), s).

(** A method that assigns no field of the catcher. *)
Definition onPage {A} (m : M (World T) A) : MT A :=
  λ s, (fst (m (snd s)), (fst s, snd (m (snd s)))).

(** [typeof this.beforeSend === 'function'] and then
    [this.beforeSend(payload)]. *)
Definition callBeforeSend (method : option Method) (payload : EventData) : MT EventData :=
  λ s, match method with
       | Some f => (fst (f (fst s) payload), (snd (f (fst s) payload), snd s))
       | None => (Normal payload, s)
       end.

(** Formats the event. The token and the type of the message are read
    from the catcher when [beforeSend] has returned. *)
Definition prepareErrorFormatted (method : option Method) (error : Message)
    (ctx : option loc) : MT (Promise CatcherMessage) :=
  async
    (let! self := this in
     let title := getTitle error in
     let type_ := getType error in
     let release_ := getRelease self in
     let! context_ := onPage (getContext self ctx) in
     let user_ := getUser self in
     let! addons := onPage (getAddons self error) in
     let! backtrace := onPage (let! p := getBacktrace self error in await p) in
     let payload := {| ev_title := title; ev_type := type_; ev_release := release_;
                       ev_context := context_; ev_user := user_; ev_addons := addons;
                       ev_backtrace := backtrace |} in
     let! payload := callBeforeSend method payload in
     let! self := this in
     ret {| msg_token := token self; msg_catcherType := type self;
            msg_payload := payload |}).

(** Formats an error and sends it. *)
Definition formatAndSend (method : option Method) (error : Message)
    (integrationAddons : option JavaScriptCatcherIntegrations) (ctx : option loc)
    : MT (Promise unit) :=
  async
    (try_catch
       (let! errorFormatted :=
          (let! p := prepareErrorFormatted method error ctx in await p) in
        let errorFormatted :=
          match integrationAddons with
          | Some addons => appendIntegrationAddons errorFormatted addons
          | None => errorFormatted
          end in
        let! self := this in
        onPage (sendErrorFormatted self errorFormatted))
       (λ formattingError,
          onPage (log "Internal error ლ(´ڡ`ლ)" LogError (Some formattingError)))).

(** The public method. *)
Definition send (method : option Method) (message : Message) (ctx : option loc)
    : MT unit :=
  let! _ := formatAndSend method message None ctx in ret tt.

(** What a call of [beforeSend] on the catcher [c] gives. *)
Definition callOf (method : option Method) (c : Catcher) (payload : EventData)
    : Completion EventData * Catcher :=
  match method with
  | Some f => f c payload
  | None => (Normal payload, c)
  end.

(** How the promise of [prepareErrorFormatted] settles for a merged context
    and a page, the catcher afterwards, and what is logged on the way. *)
Definition formatting (method : option Method) (c : Catcher) (error : Message)
    (merged : EventContext) (win : Window)
    : Promise CatcherMessage * Catcher * list LogEntry :=
  match sanitize merged with
  | Throw e => (Rejected e, c, [])
  | Normal sanitized =>
      let outcome := callOf method c (payloadOf c error sanitized win) in
      (match fst outcome with
       | Normal payload =>
           Fulfilled {| msg_token := token (snd outcome);
                        msg_catcherType := type (snd outcome);
                        msg_payload := payload |}
       | Throw e => Rejected e
       end,
       snd outcome,
       snd (backtraceOf error))
  end.

(** The catcher and the world after a call of [formatAndSend]. *)
Definition afterFormatAndSend (method : option Method) (c : Catcher) (error : Message)
    (addons : option JavaScriptCatcherIntegrations) (ctx : option loc)
    (w : World T) : Catcher * World T :=
  let merged := mergedContext c ctx w in
  let formatted := formatting method c error merged (window w) in
  let self := snd (fst formatted) in
  let w1 := afterFormatting w merged (snd formatted) in
  match fst (fst formatted) with
  | Rejected e => (self, with_logs w1 (logs w1 ++ [internalError e]))
  | Fulfilled m =>
      match sendErrorFormatted self (withAddons m addons) w1 with
      | (Normal _, w2) => (self, w2)
      | (Throw e, w2) => (self, with_logs w2 (logs w2 ++ [internalError e]))
      end
  end.

End Methods.
End Receiver.

(** ** The transport core *)

Module Socket.

(** Modelled from the spec: the state of a connection (section 3); the
    socket module of the repository is not among the sources. *)
Inductive ConnectionState := ConnConnecting | ConnOpen | ConnClosing | ConnClosed.

(** Modelled from the spec: the retry state (section 3); [maxAttempts] is
    [None] when the number of attempts is unlimited. *)
Record RetryState := {
  attemptsMade : nat;
  maxAttempts : option nat;
  baseDelay : Z
}.

(** Modelled from the spec: the states of the reconnection controller
    (section 4.2). *)
Inductive Phase := Idle | Connecting | Open | Reconnecting | PermanentlyClosed.

(** Modelled from the spec: what the reconnection controller reacts to
    (section 4.2): [connect()], called by the owner or by the first [send()];
    the connection's [onOpen]; its [onClose] when not caused by [close()];
    the end of the delay between attempts; the owner's [close()]. *)
Inductive Event := Connect | Opened | ClosedUnexpectedly | DelayElapsed | Shutdown.

(** Modelled from the spec: the reconnection controller (section 4.2), with
    two counters of what it did: the connections it constructed and opened,
    and the calls of the owner's [onClose] observer. *)
Record Controller := {
  phase : Phase;
  retry : RetryState;
  connectionsOpened : nat;
  closeNotices : nat
}.

(** Modelled from the spec: the controller before the first [send()]. *)
Definition initial (max : option nat) (delay : Z) : Controller :=
  {| phase := Idle;
     retry := {| attemptsMade := 0; maxAttempts := max; baseDelay := delay |};
     connectionsOpened := 0;
     closeNotices := 0 |}.

(** Modelled from the spec: "attemptsMade already equals maxAttempts". *)
Definition exhausted (r : RetryState) : bool :=
  match maxAttempts r with
  | Some n => Nat.eqb (attemptsMade r) n
  | None => false
  end.

(** The controller in another state, and with another count of attempts. *)
Definition with_phase (c : Controller) (p : Phase) : Controller :=
  {| phase := p; retry := retry c; connectionsOpened := connectionsOpened c;
     closeNotices := closeNotices c |}.

Definition with_attempts (c : Controller) (n : nat) : Controller :=
  {| phase := phase c;
     retry := {| attemptsMade := n; maxAttempts := maxAttempts (retry c);
                 baseDelay := baseDelay (retry c) |};
     connectionsOpened := connectionsOpened c;
     closeNotices := closeNotices c |}.

(** Modelled from the spec: a new connection is constructed and opened. *)
Definition openConnection (c : Controller) : Controller :=
  {| phase := Connecting; retry := retry c;
     connectionsOpened := S (connectionsOpened c);
     closeNotices := closeNotices c |}.

(** Modelled from the spec: the owner's [onClose] observer fires. *)
Definition notifyClose (c : Controller) : Controller :=
  {| phase := phase c; retry := retry c; connectionsOpened := connectionsOpened c;
     closeNotices := S (closeNotices c) |}.

(** Modelled from the spec: a reconnect is needed (section 4.2,
    [Reconnecting -> PermanentlyClosed] when the attempts are used up). *)
Definition reconnectNeeded (c : Controller) : Controller :=
  if exhausted (retry c) then with_phase c PermanentlyClosed
  else with_phase c Reconnecting.

(** Modelled from the spec: the transitions of section 4.2. An event that
    has no transition from the current state leaves the controller as it
    is. *)
Definition step (c : Controller) (ev : Event) : Controller :=
  match ev, phase c with
  | Shutdown, _ => with_phase c PermanentlyClosed
  | Connect, Idle => openConnection c
  | Connect, PermanentlyClosed => openConnection (with_attempts c 0)
  | Opened, Connecting => with_phase (with_attempts c 0) Open
  | ClosedUnexpectedly, Open => reconnectNeeded (notifyClose c)
  | ClosedUnexpectedly, Connecting => reconnectNeeded c
  | DelayElapsed, Reconnecting =>
      openConnection (with_attempts c (S (attemptsMade (retry c))))
  | _, _ => c
  end.

Definition run (c : Controller) (evs : list Event) : Controller :=
  foldl step c evs.

(** One failed reconnection attempt: the delay ends, a connection is
    opened, and it closes without having reached [Open]. *)
Definition failedAttempt : list Event := [DelayElapsed; ClosedUnexpectedly].

Fixpoint failedAttempts (n : nat) : list Event :=
  match n with
  | 0 => []
  | S k => failedAttempt ++ failedAttempts k
  end.

(** The states the controller can be in. *)
Definition reachable (max : option nat) (delay : Z) (c : Controller) : Prop :=
  ∃ evs, c = run (initial max delay) evs.

(** The events that are not a call of [connect()]. *)
Definition automatic (ev : Event) : bool :=
  match ev with
  | Connect => false
  | _ => true
  end.

(** What holds of the retry state in every state of a controller with at
    most [n] attempts. *)
Definition bounded (n : nat) (c : Controller) : Prop :=
  attemptsMade (retry c) ≤ n ∧
  (phase c = Reconnecting → attemptsMade (retry c) < n) ∧
  (phase c = Open → attemptsMade (retry c) = 0).

Section Facade.
Context {P : Type}.

(** Modelled from the spec: an outbound message (section 3). *)
Record OutboundMessage := {
  payload : P;
  seq : nat
}.

(** Modelled from the spec: the transport facade (section 4.4) with its
    outbound queue (section 4.3) and its connection (section 4.1).
    [wire] lists the payloads the channel accepted, oldest first;
    [channelUp k] tells whether the underlying channel is open at the
    [k]-th call of the connection's [send]; [resolved] and [rejected]
    list the sequence numbers of the settled pending sends. *)
Record Facade := {
  controller : Controller;
  connState : ConnectionState;
  queue : list OutboundMessage;
  nextSeq : nat;
  maxQueue : option nat;
  wire : list P;
  channelUp : nat → bool;
  sendAttempts : nat;
  resolved : list nat;
  rejected : list nat
}.

(** Modelled from the spec: the overflow policy (section 3): the oldest
    entries are dropped. *)
Definition overflow {A} (max : option nat) (q : list A) : list A :=
  match max with
  | Some n => drop (length q - n) q
  | None => q
  end.

(** Modelled from the spec: [enqueue] (section 4.3); the sequence number is
    assigned here. *)
Definition enqueue (f : Facade) (p : P) : Facade :=
  {| controller := controller f;
     connState := connState f;
     queue := overflow (maxQueue f) (queue f ++ [{| payload := p; seq := nextSeq f |}]);
     nextSeq := S (nextSeq f);
     maxQueue := maxQueue f;
     wire := wire f;
     channelUp := channelUp f;
     sendAttempts := sendAttempts f;
     resolved := resolved f;
     rejected := rejected f |}.

(** Modelled from the spec: the connection's [send] (section 4.1): it
    fails when the underlying channel is not open. *)
Definition connectionAccepts (f : Facade) : bool :=
  match connState f with
  | ConnOpen => channelUp f (sendAttempts f)
  | _ => false
  end.

(** Modelled from the spec: [drain] (section 4.3) over the entries of the
    queue, the [k]-th call of the connection's [send] coming first:
    the entries delivered, the entries left, and the calls made. *)
Fixpoint drainFrom (up : nat → bool) (k : nat) (q : list OutboundMessage)
    : list OutboundMessage * list OutboundMessage * nat :=
  match q with
  | [] => ([], [], k)
  | m :: rest =>
      if up k
      then let '(delivered, remaining, k') := drainFrom up (S k) rest in
           (m :: delivered, remaining, k')
      else ([], m :: rest, S k)
  end.

(** Modelled from the spec: the connection reports [onOpen]; the facade
    drains the queue once (sections 4.2 and 4.3). *)
Definition onOpen (f : Facade) : Facade :=
  let '(delivered, remaining, k) := drainFrom (channelUp f) (sendAttempts f) (queue f) in
  {| controller := step (controller f) Opened;
     connState := ConnOpen;
     queue := remaining;
     nextSeq := nextSeq f;
     maxQueue := maxQueue f;
     wire := wire f ++ map payload delivered;
     channelUp := channelUp f;
     sendAttempts := k;
     resolved := resolved f ++ map seq delivered;
     rejected := rejected f |}.

(** Modelled from the spec: [connect()] (sections 4.2 and 4.4). *)
Definition connect (f : Facade) : Facade :=
  {| controller := step (controller f) Connect;
     connState := match phase (step (controller f) Connect) with
                  | Connecting => ConnConnecting
                  | _ => connState f
                  end;
     queue := queue f; nextSeq := nextSeq f; maxQueue := maxQueue f;
     wire := wire f; channelUp := channelUp f; sendAttempts := sendAttempts f;
     resolved := resolved f; rejected := rejected f |}.

(** Modelled from the spec: the facade's [send] (section 4.4). *)
Definition send (f : Facade) (p : P) : Facade :=
  match connState f with
  | ConnOpen =>
      if connectionAccepts f
      then {| controller := controller f; connState := connState f;
              queue := queue f; nextSeq := nextSeq f; maxQueue := maxQueue f;
              wire := wire f ++ [p];
              channelUp := channelUp f; sendAttempts := S (sendAttempts f);
              resolved := resolved f; rejected := rejected f |}
      else enqueue
             {| controller := controller f; connState := connState f;
                queue := queue f; nextSeq := nextSeq f; maxQueue := maxQueue f;
                wire := wire f;
                channelUp := channelUp f; sendAttempts := S (sendAttempts f);
                resolved := resolved f; rejected := rejected f |} p
  | _ =>
      let f' := enqueue f p in
      match phase (controller f') with
      | Idle => connect f'
      | _ => f'
      end
  end.

(** Submitting a sequence of messages, in order. *)
Definition sendAll (f : Facade) (ps : list P) : Facade := foldl send f ps.

(** Modelled from the spec: the facade before the first [send()]. *)
Definition create (max : option nat) (delay : Z) (maxQ : option nat)
    (up : nat → bool) : Facade :=
  {| controller := initial max delay; connState := ConnClosed; queue := [];
     nextSeq := 0; maxQueue := maxQ; wire := []; channelUp := up;
     sendAttempts := 0; resolved := []; rejected := [] |}.

(** The sequence numbers of the queue ascend and are below the next one. *)
Fixpoint ascending (lo : nat) (q : list OutboundMessage) : Prop :=
  match q with
  | [] => True
  | m :: rest => lo ≤ seq m ∧ ascending (S (seq m)) rest
  end.

Definition queueOrdered (f : Facade) : Prop :=
  ascending 0 (queue f) ∧ Forall (λ m, seq m < nextSeq f) (queue f).

(** The queue never holds more than the configured maximum. *)
Definition withinBound (f : Facade) : Prop :=
  match maxQueue f with
  | Some n => length (queue f) ≤ n
  | None => True
  end.

Definition wellFormed (f : Facade) : Prop := queueOrdered f ∧ withinBound f.

End Facade.
Arguments OutboundMessage P : clear implicits.
Arguments Facade P : clear implicits.

End Socket.

(** ** A concrete browser, for running the catcher on examples *)

Module Browser.

(** The value of a character of the base64 alphabet. *)
Definition base64_digit (ch : Ascii.ascii) : option N :=
  let n := N_of_ascii ch in
  if (65 <=? n)%N && (n <=? 90)%N then Some (n - 65)%N
  else if (97 <=? n)%N && (n <=? 122)%N then Some (n - 71)%N
  else if (48 <=? n)%N && (n <=? 57)%N then Some (n + 4)%N
  else if (n =? 43)%N then Some 62%N
  else if (n =? 47)%N then Some 63%N
  else None.

(** The digits of a base64 text, without its padding; [None] on a
    character outside the alphabet. *)
Fixpoint base64_digits (s : string) : option (list N) :=
  match s with
  | EmptyString => Some []
  | String ch rest =>
      if Ascii.eqb ch "="%char
      then match rest with
           | EmptyString => Some []
           | String ch' EmptyString => if Ascii.eqb ch' "="%char then Some [] else None
           | _ => None
           end
      else match base64_digit ch, base64_digits rest with
           | Some d, Some ds => Some (d :: ds)
           | _, _ => None
           end
  end.

Definition byte_of (n : N) : Ascii.ascii := ascii_of_N (n mod 256).

(** Four digits give three bytes; a last group of three or two digits
    gives two bytes or one. *)
Fixpoint base64_bytes (ds : list N) : option string :=
  match ds with
  | [] => Some EmptyString
  | a :: b :: c :: d :: rest =>
      let n := (a * 262144 + b * 4096 + c * 64 + d)%N in
      match base64_bytes rest with
      | Some s => Some (String (byte_of (n / 65536))
                         (String (byte_of (n / 256)) (String (byte_of n) s)))
      | None => None
      end
  | [a; b; c] =>
      let n := (a * 262144 + b * 4096 + c * 64)%N in
      Some (String (byte_of (n / 65536)) (String (byte_of (n / 256)) EmptyString))
  | [a; b] =>
      let n := (a * 262144 + b * 4096)%N in
      Some (String (byte_of (n / 65536)) EmptyString)
  | [_] => None
  end.

(** [atob]: the bytes a base64 text encodes, or an [InvalidCharacterError]. *)
Definition decode_base64 (s : string) : Completion string :=
  match base64_digits s with
  | Some ds =>
      match base64_bytes ds with
      | Some bytes => Normal bytes
      | None => Throw (JsError "InvalidCharacterError" "The string is not correctly encoded.")
      end
  | None => Throw (JsError "InvalidCharacterError" "The string is not correctly encoded.")
  end.

Definition quote : Ascii.ascii := ascii_of_nat 34.

(** The characters up to the next double quote, and what follows it. *)
Fixpoint read_quoted (s : string) : option (string * string) :=
  match s with
  | EmptyString => None
  | String ch rest =>
      if Ascii.eqb ch quote then Some (EmptyString, rest)
      else match read_quoted rest with
           | Some (body, after) => Some (String ch body, after)
           | None => None
           end
  end.

(** The members of a flat object whose values are strings, after the
    opening brace: [fuel] bounds the number of members. *)
Fixpoint read_members (fuel : nat) (s : string) : option (list (string * Json)) :=
  match fuel with
  | 0 => None
  | S fuel' =>
      match s with
      | String q rest =>
          if Ascii.eqb q quote then
            match read_quoted rest with
            | Some (key, String colon (String q' rest')) =>
                if Ascii.eqb colon ":"%char && Ascii.eqb q' quote then
                  match read_quoted rest' with
                  | Some (value, String sep rest'') =>
                      if Ascii.eqb sep "}"%char then
                        match rest'' with
                        | EmptyString => Some [(key, JStr value)]
                        | _ => None
                        end
                      else if Ascii.eqb sep ","%char then
                        match read_members fuel' rest'' with
                        | Some members => Some ((key, JStr value) :: members)
                        | None => None
                        end
                      else None
                  | _ => None
                  end
                else None
            | _ => None
            end
          else None
      | EmptyString => None
      end
  end.

(** [JSON.parse] on the texts an integration token holds: [null], [{}] and
    flat objects of strings without escapes; a [SyntaxError] otherwise. *)
Definition parse_json (s : string) : Completion Json :=
  if String.eqb s "null" then Normal JNull
  else if String.eqb s "{}" then Normal (JObj [])
  else match s with
       | String brace rest =>
           if Ascii.eqb brace "{"%char then
             match read_members (String.length s) rest with
             | Some members => Normal (JObj members)
             | None => Throw (JsError "SyntaxError" "Unexpected token in JSON")
             end
           else Throw (JsError "SyntaxError" "Unexpected token in JSON")
       | EmptyString => Throw (JsError "SyntaxError" "Unexpected end of JSON input")
       end.

(** The string conversion of a value that is not a string. *)
Definition string_of_json (v : Json) : string :=
  match v with
  | JNull => "null"
  | JBool true => "true"
  | JBool false => "false"
  | JNum n => pretty n
  | JStr s => s
  | JArr _ => ""
  | JObj _ => "[object Object]"
  end.

#[export] Instance platform : Platform :=
  {| atob := decode_base64; JSON_parse := parse_json;
     to_string := string_of_json; VERSION := "3.0.0" |}.

(** A sanitizer that keeps every value, and a stack parser that gives one
    frame for an error that has a stack and fails for one that has none. *)
#[export] Instance modules : Modules :=
  {| sanitize := λ ctx, Normal ctx;
     stackParser_parse := λ e,
       match error_stack e with
       | Some stack => Fulfilled [{| frame_file := stack; frame_line := 1;
                                     frame_column := 1; frame_function := None |}]
       | None => Rejected (JsError "Error" "Cannot parse given Error object")
       end |}.

(** A socket that records what it is given. One that was allowed no
    reconnection attempt rejects every message. *)
Record RecordingSocket := {
  rs_options : SocketOptions;
  rs_received : list CatcherMessage
}.

#[export] Instance recordingTransport : Transport RecordingSocket :=
  {| socket_new := λ options, {| rs_options := options; rs_received := [] |};
     socket_send := λ m s,
       match reconnectionAttempts (rs_options s) with
       | Some 0%Z => (Normal (Rejected (JsError "Error" "Connection is permanently closed")), s)
       | _ => (Normal (Fulfilled tt),
               {| rs_options := rs_options s; rs_received := rs_received s ++ [m] |})
       end |}.

(** A page that has logged nothing yet and stored no user id. *)
Definition freshPage : World RecordingSocket :=
  {| logs := []; console := []; storage := ∅; storageOps := [];
     randomIds := λ n, "generated-" +:+ pretty n; randomUsed := 0;
     heap := []; sockets := []; socketsCreated := [];
     listeners := []; vueApps := [];
     window := {| innerWidth := 1280; innerHeight := 720;
                  userAgent := "Mozilla/5.0";
                  location_href := "https://example.com/app?page=2&debug";
                  location_search := "?page=2&debug" |} |}.

(** The base64 text of [{"integrationId":"abc123","secret":"s3cr3t"}]. *)
Definition goodToken : string :=
  "eyJpbnRlZ3JhdGlvbklkIjoiYWJjMTIzIiwic2VjcmV0IjoiczNjcjN0In0=".

(** The base64 text of [{"secret":"s3cr3t"}]: no integration id. *)
Definition tokenWithoutId : string := "eyJzZWNyZXQiOiJzM2NyM3QifQ==".

(** The base64 text of [{"integrationId":"","secret":"s3cr3t"}]. *)
Definition tokenWithEmptyId : string :=
  "eyJpbnRlZ3JhdGlvbklkIjoiIiwic2VjcmV0IjoiczNjcjN0In0=".

(** Settings that hold a token and nothing else. *)
Definition settingsWith (tok : option string) : HawkInitialSettings :=
  {| s_token := tok; s_debug := None; s_release := None; s_user := None;
     s_context := None; s_beforeSend := None; s_collectorEndpoint := None;
     s_reconnectionAttempts := None; s_reconnectionTimeout := None;
     s_disableGlobalErrorsHandling := None; s_vue := None; s_onClose := None |}.

(** No token at all. *)
Definition settingsWithoutToken : HawkInitialSettings := settingsWith None.

(** A good token, and a socket that may not reconnect: it rejects. *)
Definition offlineSettings : HawkInitialSettings :=
  {| s_token := Some goodToken; s_debug := None; s_release := None; s_user := None;
     s_context := None; s_beforeSend := None; s_collectorEndpoint := None;
     s_reconnectionAttempts := Some 0%Z; s_reconnectionTimeout := None;
     s_disableGlobalErrorsHandling := None; s_vue := None; s_onClose := None |}.

(** A good token, and an [onClose] property put on the settings. *)
Definition settingsWithOnClose : HawkInitialSettings :=
  {| s_token := Some goodToken; s_debug := None; s_release := None; s_user := None;
     s_context := None; s_beforeSend := None; s_collectorEndpoint := None;
     s_reconnectionAttempts := Some 5%Z; s_reconnectionTimeout := Some 1000%Z;
     s_disableGlobalErrorsHandling := None; s_vue := None;
     s_onClose := Some (UserOnClose "notifyOperations") |}.

(** A good token, and a [collectorEndpoint] that is the empty string. *)
Definition settingsWithEmptyEndpoint : HawkInitialSettings :=
  {| s_token := Some goodToken; s_debug := None; s_release := None; s_user := None;
     s_context := None; s_beforeSend := None; s_collectorEndpoint := Some "";
     s_reconnectionAttempts := None; s_reconnectionTimeout := None;
     s_disableGlobalErrorsHandling := None; s_vue := None; s_onClose := None |}.

(** The catcher [new Catcher(goodToken)] gives on a fresh page. *)
Definition demoCatcher : Catcher :=
  {| version := "3.0.0"; type := "errors/javascript"; token := Some goodToken;
     debug := false; release := None;
     user := Some {| user_id := "generated-0"; user_name := None; user_url := None;
                     user_image := None |};
     context := None; beforeSend := None; transport := Some 0 |}.

(** The page after [new Catcher(goodToken)]. *)
Definition demoPage : World RecordingSocket :=
  snd (constructor (SettingsToken goodToken) freshPage).

(** The page after [new Catcher(offlineSettings)]. *)
Definition offlinePage : World RecordingSocket :=
  snd (constructor (SettingsObject offlineSettings) freshPage).


(** A [beforeSend] that gives every event its own title, type and
    backtrace. *)
Definition retitlingFilter : EventData → Completion EventData :=
  λ event, Normal {| ev_title := "filtered"; ev_type := Some "Custom";
                     ev_release := ev_release event; ev_context := ev_context event;
                     ev_user := ev_user event; ev_addons := ev_addons event;
                     ev_backtrace := Some [] |}.

(** The demo catcher with the retitling callback. *)
Definition retitlingCatcher : Catcher :=
  {| version := "3.0.0"; type := "errors/javascript"; token := Some goodToken;
     debug := false; release := None;
     user := Some {| user_id := "generated-0"; user_name := None; user_url := None;
                     user_image := None |};
     context := None; beforeSend := Some retitlingFilter; transport := Some 0 |}.


(** A [beforeSend] that, for an event titled [secret], renames the user of
    the event and throws:
    [(event) => { if (event.title === 'secret') { event.user.id = 'tampered'; throw new Error('beforeSend failed'); } return event; }]. *)
Definition tamperingMethod : Method :=
  λ this event,
    if String.eqb (ev_title event) "secret"
    then (Throw (JsError "Error" "beforeSend failed"),
          {| version := version this; type := type this; token := token this;
             debug := debug this; release := release this;
             user := (λ u, {| user_id := "tampered"; user_name := user_name u;
                              user_url := user_url u; user_image := user_image u |})
                       <$> user this;
             context := context this; beforeSend := beforeSend this;
             transport := transport this |})
    else (Normal event, this).

(** An error the stack parser cannot parse. *)
Definition errorWithoutStack : ErrorObject :=
  {| error_name := "TypeError"; error_message := "x is not a function";
     error_stack := None |}.

(** A formatted event. *)
Definition demoMessage : CatcherMessage :=
  {| msg_token := Some goodToken; msg_catcherType := "errors/javascript";
     msg_payload :=
       {| ev_title := "Reason message"; ev_type := None; ev_release := None;
          ev_context := ∅;
          ev_user := Some {| user_id := "generated-0"; user_name := None;
                             user_url := None; user_image := None |};
          ev_addons :=
            {| addons_innerWidth := 1280; addons_innerHeight := 720;
               addons_userAgent := "Mozilla/5.0";
               addons_url := "https://example.com/app?page=2&debug";
               addons_get := None; addons_RAW_EVENT_DATA := None;
               addons_vue := None |};
          ev_backtrace := None |} |}.




End Browser.

(** ** More pages and events, for the further properties *)

Module Scenarios.
Import Browser.

(** A page whose address has a query with a key given twice. *)
Definition pageWithQuery : World RecordingSocket :=
  {| logs := []; console := []; storage := ∅; storageOps := [];
     randomIds := λ n, "generated-" +:+ pretty n; randomUsed := 0;
     heap := []; sockets := []; socketsCreated := [];
     listeners := []; vueApps := [];
     window := {| innerWidth := 1280; innerHeight := 720;
                  userAgent := "Mozilla/5.0";
                  location_href := "https://example.com/app?page=2&debug&page=3";
                  location_search := "?page=2&debug&page=3" |} |}.

(** A page whose query names the key [__proto__]. *)
Definition pageWithProtoQuery : World RecordingSocket :=
  {| logs := []; console := []; storage := ∅; storageOps := [];
     randomIds := λ n, "generated-" +:+ pretty n; randomUsed := 0;
     heap := []; sockets := []; socketsCreated := [];
     listeners := []; vueApps := [];
     window := {| innerWidth := 1280; innerHeight := 720;
                  userAgent := "Mozilla/5.0";
                  location_href := "https://example.com/app?__proto__=x&page=2";
                  location_search := "?__proto__=x&page=2" |} |}.


(** The socket of the demo page, with what it has received. *)
Definition demoSocketWith (received : list CatcherMessage) : RecordingSocket :=
  {| rs_options := {| collectorEndpoint := "wss://abc123.k1.hawk.so:443/ws";
                      reconnectionAttempts := None; reconnectionTimeout := None;
                      onClose := ConnectionLostNotice |};
     rs_received := received |}.

(** An error the stack parser can parse. *)
Definition errorWithStack : ErrorObject :=
  {| error_name := "RangeError"; error_message := "Invalid array length";
     error_stack := Some "app.js" |}.

(** A token that is no base64 text, and an endpoint. *)
Definition settingsWithEndpoint : HawkInitialSettings :=
  {| s_token := Some "not a token!"; s_debug := None; s_release := None;
     s_user := None; s_context := None; s_beforeSend := None;
     s_collectorEndpoint := Some "wss://collector.example.com/ws";
     s_reconnectionAttempts := None; s_reconnectionTimeout := None;
     s_disableGlobalErrorsHandling := None; s_vue := None; s_onClose := None |}.

(** The base64 text of [null]. *)
Definition tokenOfNull : string := "bnVsbA==".

End Scenarios.

(** * Properties of the transport core *)

Module SocketFacts.
Import Socket.

Lemma step_maxAttempts c ev :
  maxAttempts (retry (step c ev)) = maxAttempts (retry c).
Proof.
  destruct c as [ph r o n]; destruct ev, ph; simpl; try reflexivity;
    unfold reconnectNeeded; simpl; destruct (exhausted _); reflexivity.
Qed.

Lemma run_maxAttempts evs c :
  maxAttempts (retry (run c evs)) = maxAttempts (retry c).
Proof.
  revert c; induction evs as [|ev evs IH]; intros c; simpl; [reflexivity|].
  unfold run in IH. rewrite IH. apply step_maxAttempts.
Qed.

Lemma exhausted_spec r n :
  maxAttempts r = Some n → exhausted r = true ↔ attemptsMade r = n.
Proof.
  intros Hmax. unfold exhausted. rewrite Hmax. apply Nat.eqb_eq.
Qed.

Lemma bounded_step n c ev :
  maxAttempts (retry c) = Some n → bounded n c → bounded n (step c ev).
Proof.
  intros Hmax (Hle & Hrec & Hopen).
  destruct c as [ph [a mx d] o k]; simpl in *; subst mx.
  destruct ev, ph; unfold bounded; simpl;
    unfold reconnectNeeded, notifyClose, exhausted; simpl;
    repeat match goal with
           | |- context [Nat.eqb ?x ?y] => destruct (Nat.eqb_spec x y)
           end; simpl;
    repeat split; intros; try discriminate; try lia;
    try (specialize (Hrec eq_refl); lia);
    try (specialize (Hopen eq_refl); lia).
Qed.

Lemma bounded_initial n delay : bounded n (initial (Some n) delay).
Proof. unfold bounded; simpl. repeat split; intros; try discriminate; lia. Qed.

Lemma bounded_run n evs c :
  maxAttempts (retry c) = Some n → bounded n c → bounded n (run c evs).
Proof.
  revert c; induction evs as [|ev evs IH]; intros c Hmax Hb; simpl; [exact Hb|].
  apply IH; [rewrite step_maxAttempts; exact Hmax | apply bounded_step; assumption].
Qed.

Lemma bounded_reachable n delay c :
  reachable (Some n) delay c → maxAttempts (retry c) = Some n ∧ bounded n c.
Proof.
  intros [evs ->]. split.
  - rewrite run_maxAttempts. reflexivity.
  - apply bounded_run; [reflexivity | apply bounded_initial].
Qed.

Lemma run_app c evs1 evs2 : run c (evs1 ++ evs2) = run (run c evs1) evs2.
Proof. unfold run. apply foldl_app. Qed.

(** One failed attempt, from a controller that waits to reconnect. *)
Lemma failedAttempt_run n c :
  maxAttempts (retry c) = Some n →
  phase c = Reconnecting →
  let c' := run c failedAttempt in
  maxAttempts (retry c') = Some n ∧
  attemptsMade (retry c') = S (attemptsMade (retry c)) ∧
  connectionsOpened c' = S (connectionsOpened c) ∧
  phase c' = if Nat.eqb (S (attemptsMade (retry c))) n
             then PermanentlyClosed else Reconnecting.
Proof.
  destruct c as [ph [a mx d] o nt]; cbn -[Nat.eqb]; intros -> ->.
  unfold reconnectNeeded, exhausted; cbn -[Nat.eqb].
  destruct (Nat.eqb (S a) n); cbn -[Nat.eqb]; repeat split; reflexivity.
Qed.

(** [k] failed attempts in a row, from a controller that waits to
    reconnect. *)
Lemma failedAttempts_run n k c :
  maxAttempts (retry c) = Some n →
  phase c = Reconnecting →
  attemptsMade (retry c) < n →
  attemptsMade (retry c) + k ≤ n →
  let c' := run c (failedAttempts k) in
  attemptsMade (retry c') = attemptsMade (retry c) + k ∧
  connectionsOpened c' = connectionsOpened c + k ∧
  phase c' = if Nat.eqb (attemptsMade (retry c) + k) n
             then PermanentlyClosed else Reconnecting.
Proof.
  revert c; induction k as [|k IH]; intros c Hmax Hph Hlt Hle.
  - cbn [failedAttempts run foldl]. rewrite !Nat.add_0_r.
    split; [reflexivity|]. split; [reflexivity|].
    destruct (Nat.eqb_spec (attemptsMade (retry c)) n); [lia | exact Hph].
  - cbn [failedAttempts]. cbv zeta. rewrite run_app.
    destruct (failedAttempt_run n c Hmax Hph) as (Hmax' & Ha & Ho & Hp).
    set (c1 := run c failedAttempt) in *.
    destruct (Nat.eqb_spec (S (attemptsMade (retry c))) n) as [Heq|Hne].
    + assert (k = 0) as -> by lia. cbn [failedAttempts run foldl].
      rewrite Ha, Ho, Hp.
      replace (attemptsMade (retry c) + 1) with (S (attemptsMade (retry c))) by lia.
      rewrite (proj2 (Nat.eqb_eq _ _) Heq).
      repeat split; lia.
    + destruct (IH c1 Hmax' Hp) as (Ha' & Ho' & Hp'); [lia | lia |].
      rewrite Ha', Ho', Hp', Ha, Ho.
      replace (S (attemptsMade (retry c)) + k) with (attemptsMade (retry c) + S k) by lia.
      repeat split; lia.
Qed.

(** Without a call of [connect()], a permanently closed controller stays
    as it is. *)
Lemma permanentlyClosed_stays evs c :
  phase c = PermanentlyClosed → forallb automatic evs = true → run c evs = c.
Proof.
  revert c; induction evs as [|ev evs IH]; intros c Hph Hauto; simpl; [reflexivity|].
  simpl in Hauto. apply andb_prop in Hauto as [Hev Hrest].
  assert (step c ev = c) as ->.
  { destruct c as [ph r o nt]; simpl in *; subst ph.
    destruct ev; simpl in *; try reflexivity; discriminate. }
  apply IH; assumption.
Qed.

(** C4. With a finite [maxAttempts = n]: in every reachable state
    [attemptsMade] is at most [n]; and when an open connection is lost,
    exactly [n] failed reconnection attempts in a row bring the controller
    to [PermanentlyClosed] (fewer leave it in [Reconnecting]), [n]
    connections having been opened on the way; from then on no event other
    than a call of [connect()] changes the controller, so no further
    connection is opened. *)
Theorem reconnection_bound (n : nat) (delay : Z) (c : Controller) :
  reachable (Some n) delay c →
  attemptsMade (retry c) ≤ n ∧
  (phase c = Open →
     phase (run c (ClosedUnexpectedly :: failedAttempts n)) = PermanentlyClosed ∧
     connectionsOpened (run c (ClosedUnexpectedly :: failedAttempts n))
       = connectionsOpened c + n ∧
     (∀ k, k < n →
        phase (run c (ClosedUnexpectedly :: failedAttempts k)) = Reconnecting) ∧
     (∀ evs, forallb automatic evs = true →
        run (run c (ClosedUnexpectedly :: failedAttempts n)) evs
          = run c (ClosedUnexpectedly :: failedAttempts n))).
Proof.
  intros Hreach. destruct (bounded_reachable _ _ _ Hreach) as (Hmax & Hle & _ & Hopen).
  split; [exact Hle|]. intros Hph. specialize (Hopen Hph).
  assert (Hclosed : ∀ k, k ≤ n →
            phase (run c (ClosedUnexpectedly :: failedAttempts k))
              = (if Nat.eqb k n then PermanentlyClosed else Reconnecting) ∧
            connectionsOpened (run c (ClosedUnexpectedly :: failedAttempts k))
              = connectionsOpened c + k).
  { intros k Hk. change (ClosedUnexpectedly :: failedAttempts k)
      with ([ClosedUnexpectedly] ++ failedAttempts k). rewrite run_app.
    destruct c as [ph [a mx d] o nt]; cbn -[Nat.eqb] in *; subst ph a mx.
    unfold reconnectNeeded, exhausted, notifyClose; cbn -[Nat.eqb].
    destruct (Nat.eqb_spec 0 n) as [<-|Hn].
    - assert (k = 0) as -> by lia. cbn. split; [reflexivity | lia].
    - match goal with |- context [run ?c0 _] =>
        destruct (failedAttempts_run n k c0) as (_ & Ho & Hp);
          [reflexivity | reflexivity | cbn; lia | cbn; lia |]
      end.
      cbn -[Nat.eqb] in Ho, Hp. rewrite Ho, Hp. split; reflexivity. }
  destruct (Hclosed n (Nat.le_refl n)) as [Hfinal Hcount].
  rewrite Nat.eqb_refl in Hfinal.
  repeat split.
  - exact Hfinal.
  - exact Hcount.
  - intros k Hk. destruct (Hclosed k) as [Hp _]; [lia|].
    destruct (Nat.eqb_spec k n); [lia | exact Hp].
  - intros evs Hauto. apply permanentlyClosed_stays; assumption.
Qed.

(** Three attempts allowed: the connection opens, is lost, and three
    attempts fail. *)
Lemma reconnection_bound_witness :
  attemptsMade (retry (run (initial (Some 3) 1000) [Connect; Opened])) ≤ 3 ∧
  phase (run (run (initial (Some 3) 1000) [Connect; Opened])
             (ClosedUnexpectedly :: failedAttempts 3)) = PermanentlyClosed ∧
  connectionsOpened (run (run (initial (Some 3) 1000) [Connect; Opened])
                         (ClosedUnexpectedly :: failedAttempts 3)) = 1 + 3.
Proof.
  destruct (reconnection_bound 3 1000 (run (initial (Some 3) 1000) [Connect; Opened])
              (ex_intro _ [Connect; Opened] eq_refl)) as [Hle Hopen].
  destruct (Hopen eq_refl) as (Hphase & Hcount & _).
  split; [exact Hle|]. split; [exact Hphase | exact Hcount].
Defined.

(** *** The outbound queue *)

Section FacadeFacts.
Context {P : Type}.
Implicit Types (f : Facade P) (q : list (OutboundMessage P)).

Lemma overflow_within {A} (n : nat) (l : list A) : length (overflow (Some n) l) ≤ n.
Proof. unfold overflow. rewrite length_drop. lia. Qed.

Lemma overflow_id {A} (max : option nat) (l : list A) :
  match max with Some n => length l ≤ n | None => True end →
  overflow max l = l.
Proof.
  destruct max as [n|]; simpl; [|reflexivity].
  intros Hle. replace (length l - n) with 0 by lia. reflexivity.
Qed.

Lemma overflow_map {A B} (g : A → B) (max : option nat) (l : list A) :
  map g (overflow max l) = overflow max (map g l).
Proof.
  destruct max as [n|]; simpl; [|reflexivity].
  rewrite length_map. apply (fmap_drop g).
Qed.

Lemma overflow_app {A} (max : option nat) (l1 l2 : list A) :
  overflow max (overflow max l1 ++ l2) = overflow max (l1 ++ l2).
Proof.
  destruct max as [n|]; simpl; [|reflexivity].
  destruct (decide (length l1 ≤ n)) as [Hle|Hgt].
  - replace (length l1 - n) with 0 by lia. reflexivity.
  - rewrite length_app, length_drop, length_app.
    replace (length l1 - (length l1 - n) + length l2 - n) with (length l2) by lia.
    replace (length l1 + length l2 - n) with ((length l1 - n) + length l2) by lia.
    rewrite <- drop_drop. f_equal. rewrite drop_app_le by lia. reflexivity.
Qed.

Lemma ascending_weaken lo lo' q : lo' ≤ lo → ascending lo q → ascending lo' q.
Proof. destruct q as [|m rest]; simpl; [tauto|]. intros Hle [H1 H2]. split; [lia | exact H2]. Qed.

Lemma ascending_drop k lo q : ascending lo q → ascending lo (drop k q).
Proof.
  revert lo q; induction k as [|k IH]; intros lo q Hq; [rewrite drop_0; exact Hq|].
  destruct q as [|m rest]; [exact Hq|]. simpl. destruct Hq as [Hlo Hrest].
  apply IH. apply ascending_weaken with (S (seq m)); [lia | exact Hrest].
Qed.

Lemma ascending_snoc lo q (p : P) s :
  ascending lo q → Forall (λ m, seq m < s) q → lo ≤ s →
  ascending lo (q ++ [{| payload := p; seq := s |}]).
Proof.
  revert lo; induction q as [|m rest IH]; intros lo Hq Hall Hle; simpl.
  - split; [exact Hle | exact I].
  - destruct Hq as [Hlo Hrest]. inversion Hall as [|? ? Hm Hall']; subst.
    split; [exact Hlo|]. apply IH; [exact Hrest | exact Hall' | lia].
Qed.

(** What [drain] does: it delivers a prefix of the queue, in order, every
    entry of it accepted by the channel, and stops at the first refusal. *)
Lemma drainFrom_spec up k q delivered remaining k' :
  drainFrom up k q = (delivered, remaining, k') →
  q = delivered ++ remaining ∧
  (∀ i, i < length delivered → up (k + i) = true) ∧
  (remaining ≠ [] → up (k + length delivered) = false).
Proof.
  revert k delivered remaining k'; induction q as [|m rest IH];
    intros k delivered remaining k' Hd; simpl in Hd.
  - inversion Hd; subst. repeat split; [intros i Hi; simpl in Hi; lia | congruence].
  - destruct (up k) eqn:Hup.
    + destruct (drainFrom up (S k) rest) as [[d r] k1] eqn:Hrest.
      inversion Hd; subst. destruct (IH _ _ _ _ Hrest) as (Hq & Hacc & Hstop).
      repeat split.
      * simpl. f_equal. exact Hq.
      * intros [|i] Hi; simpl in Hi; [rewrite Nat.add_0_r; exact Hup|].
        replace (k + S i) with (S k + i) by lia. apply Hacc. lia.
      * intros Hne. simpl. replace (k + S (length d)) with (S k + length d) by lia.
        apply Hstop, Hne.
    + inversion Hd; subst. repeat split.
      * intros i Hi; simpl in Hi; lia.
      * intros _. simpl. rewrite Nat.add_0_r. exact Hup.
Qed.

Lemma drainFrom_all up k q :
  (∀ i, up i = true) → ∃ k', drainFrom up k q = (q, [], k').
Proof.
  intros Hup. revert k; induction q as [|m rest IH]; intros k; simpl.
  - eexists; reflexivity.
  - rewrite Hup. destruct (IH (S k)) as [k' ->]. eexists; reflexivity.
Qed.

(** A message submitted while no connection is open is put at the end of
    the queue, with the next sequence number. *)
Lemma send_disconnected f (p : P) :
  connState f ≠ ConnOpen →
  connState (send f p) ≠ ConnOpen ∧
  queue (send f p)
    = overflow (maxQueue f) (queue f ++ [{| payload := p; seq := nextSeq f |}]) ∧
  nextSeq (send f p) = S (nextSeq f) ∧
  maxQueue (send f p) = maxQueue f ∧
  wire (send f p) = wire f ∧
  channelUp (send f p) = channelUp f ∧
  sendAttempts (send f p) = sendAttempts f.
Proof.
  intros Hconn. unfold send.
  destruct (connState f) eqn:Hc; try congruence;
    cbn [enqueue controller];
    destruct (phase (controller f)); cbn; rewrite ?Hc;
    repeat split; try congruence;
    destruct (phase _); congruence.
Qed.

Lemma send_wellFormed f (p : P) :
  connState f ≠ ConnOpen → wellFormed f → wellFormed (send f p).
Proof.
  intros Hconn [[Hasc Hlt] Hbound].
  destruct (send_disconnected f p Hconn) as (_ & Hq & Hn & Hm & _).
  unfold wellFormed, queueOrdered, withinBound. rewrite Hq, Hn, Hm.
  assert (Hasc' : ascending 0 (queue f ++ [{| payload := p; seq := nextSeq f |}])).
  { apply ascending_snoc; [exact Hasc | exact Hlt | lia]. }
  assert (Hlt' : Forall (λ m, seq m < S (nextSeq f))
                   (queue f ++ [{| payload := p; seq := nextSeq f |}])).
  { apply Forall_app. split.
    - eapply Forall_impl; [exact Hlt | simpl; intros; lia].
    - constructor; [simpl; lia | constructor]. }
  destruct (maxQueue f) as [n|]; simpl.
  - repeat split; [apply ascending_drop, Hasc' | apply Forall_drop, Hlt' |].
    rewrite length_drop. lia.
  - repeat split; assumption.
Qed.

(** Submissions made while no connection is open are queued in the order
    of submission; on overflow the oldest are dropped. *)
Lemma sendAll_disconnected (ps : list P) f :
  connState f ≠ ConnOpen → wellFormed f →
  connState (sendAll f ps) ≠ ConnOpen ∧
  wellFormed (sendAll f ps) ∧
  map payload (queue (sendAll f ps))
    = overflow (maxQueue f) (map payload (queue f) ++ ps) ∧
  maxQueue (sendAll f ps) = maxQueue f ∧
  wire (sendAll f ps) = wire f ∧
  channelUp (sendAll f ps) = channelUp f.
Proof.
  revert f; induction ps as [|p ps IH]; intros f Hconn Hwf.
  - cbn. rewrite app_nil_r.
    split; [exact Hconn|]. split; [exact Hwf|]. split; [|repeat split].
    symmetry. apply overflow_id. destruct Hwf as [_ Hb]. unfold withinBound in Hb.
    destruct (maxQueue f); [rewrite length_map; exact Hb | exact I].
  - change (sendAll f (p :: ps)) with (sendAll (send f p) ps).
    destruct (send_disconnected f p Hconn) as (Hc & Hq & _ & Hm & Hw & Hup & _).
    destruct (IH (send f p) Hc (send_wellFormed f p Hconn Hwf))
      as (Hc' & Hwf' & Hq' & Hm' & Hw' & Hup').
    split; [exact Hc'|]. split; [exact Hwf'|].
    split; [|repeat split; congruence].
    rewrite Hq', Hm, Hq, overflow_map, map_app. cbn [map payload].
    rewrite overflow_app, <- app_assoc. reflexivity.
Qed.

Lemma create_wellFormed max delay maxQ up :
  wellFormed (create (P := P) max delay maxQ up).
Proof.
  unfold wellFormed, queueOrdered, withinBound; cbn.
  repeat split; [constructor|]. destruct maxQ; [lia | exact I].
Qed.

(** What the transition into [Open] does to the queue and the wire. *)
Lemma onOpen_drains f :
  ∃ delivered,
    queue f = delivered ++ queue (onOpen f) ∧
    wire (onOpen f) = wire f ++ map payload delivered ∧
    (queue (onOpen f) ≠ [] →
       channelUp f (sendAttempts f + length delivered) = false) ∧
    ((∀ k, channelUp f k = true) → delivered = queue f ∧ queue (onOpen f) = []).
Proof.
  unfold onOpen.
  destruct (drainFrom (channelUp f) (sendAttempts f) (queue f))
    as [[delivered remaining] k'] eqn:Hd.
  exists delivered. cbn.
  destruct (drainFrom_spec _ _ _ _ _ _ Hd) as (Hq & _ & Hstop).
  split; [exact Hq|]. split; [reflexivity|]. split; [exact Hstop|].
  intros Hup. destruct (drainFrom_all (channelUp f) (sendAttempts f) (queue f) Hup)
    as [k1 Hall].
  rewrite Hall in Hd. inversion Hd; subst. split; reflexivity.
Qed.

(** C1. Messages submitted while no connection is open are queued in the
    order of submission, with ascending sequence numbers (on overflow of a
    bounded queue the oldest are dropped). When the connection opens, the
    drain delivers a prefix of the queue to the wire in that order and
    leaves the rest queued: nothing is reordered, duplicated or dropped;
    it stops only at a refusal of the channel. With an unbounded, initially
    empty queue and a channel that stays open, the wire receives exactly
    the submitted messages in the order of submission. *)
Theorem fifo_delivery f (ps : list P) :
  wellFormed f → connState f ≠ ConnOpen →
  map payload (queue (sendAll f ps))
    = overflow (maxQueue f) (map payload (queue f) ++ ps) ∧
  queueOrdered (sendAll f ps) ∧
  (∃ delivered,
     queue (sendAll f ps) = delivered ++ queue (onOpen (sendAll f ps)) ∧
     wire (onOpen (sendAll f ps)) = wire f ++ map payload delivered ∧
     (queue (onOpen (sendAll f ps)) ≠ [] →
        channelUp f (sendAttempts (sendAll f ps) + length delivered) = false) ∧
     ((∀ k, channelUp f k = true) →
        delivered = queue (sendAll f ps) ∧ queue (onOpen (sendAll f ps)) = [])) ∧
  (maxQueue f = None → queue f = [] → (∀ k, channelUp f k = true) →
     wire (onOpen (sendAll f ps)) = wire f ++ ps).
Proof.
  intros Hwf Hconn.
  destruct (sendAll_disconnected ps f Hconn Hwf) as (_ & [Hord _] & Hq & _ & Hw & Hup).
  destruct (onOpen_drains (sendAll f ps)) as (delivered & Hsplit & Hwire & Hstop & Hall).
  rewrite Hw, Hup in *.
  split; [exact Hq|]. split; [exact Hord|]. split.
  - exists delivered. split; [exact Hsplit|]. split; [exact Hwire|].
    split; [exact Hstop | exact Hall].
  - intros Hmax Hempty Hopen. destruct (Hall Hopen) as [-> _].
    rewrite Hwire, Hq, Hmax, Hempty. reflexivity.
Qed.

End FacadeFacts.

(** Three messages submitted before the first connection opens. *)
Lemma fifo_delivery_witness :
  wire (onOpen (sendAll (create (Some 3) 1000 None (λ _, true)) ["A"; "B"; "C"]))
    = ["A"; "B"; "C"].
Proof.
  destruct (fifo_delivery (create (Some 3) 1000 None (λ _, true)) ["A"; "B"; "C"]
              (create_wellFormed _ _ _ _)) as (_ & _ & _ & Hfifo).
  - discriminate.
  - apply Hfifo; reflexivity.
Defined.

End SocketFacts.

(** * Properties of the catcher *)

Section CatcherFacts.
Context {T : Type} `{!Transport T} `{!Platform} `{!Modules}.

Notation M := (M (World T)).

(** ** What a computation leaves as it is *)

Lemma preserves_ret {X A} (f : World T → X) (a : A) : preserves f (ret a).
Proof. intros w; reflexivity. Qed.

Lemma preserves_throw {X A} (f : World T → X) (e : Exn) : preserves f (throw (A := A) e).
Proof. intros w; reflexivity. Qed.

Lemma preserves_lift {X A} (f : World T → X) (r : Completion A) : preserves f (lift r).
Proof. intros w; reflexivity. Qed.

Lemma preserves_bind {X A B} (f : World T → X) (m : M A) (k : A → M B) :
  preserves f m → (∀ a, preserves f (k a)) → preserves f (bind m k).
Proof.
  intros Hm Hk w. unfold bind. specialize (Hm w).
  destruct (m w) as [[a|e] w1]; simpl in *; [rewrite Hk; exact Hm | exact Hm].
Qed.

Lemma preserves_try_catch {X A} (f : World T → X) (m : M A) (h : Exn → M A) :
  preserves f m → (∀ e, preserves f (h e)) → preserves f (try_catch m h).
Proof.
  intros Hm Hh w. unfold try_catch. specialize (Hm w).
  destruct (m w) as [[a|e] w1]; simpl in *; [exact Hm | rewrite Hh; exact Hm].
Qed.

Lemma preserves_async {X A} (f : World T → X) (m : M A) :
  preserves f m → preserves f (async m).
Proof.
  intros Hm w. unfold async. specialize (Hm w).
  destruct (m w) as [[a|e] w1]; exact Hm.
Qed.

Lemma preserves_await {X A} (f : World T → X) (p : Promise A) : preserves f (await p).
Proof. destruct p; intros w; reflexivity. Qed.

Lemma preserves_promise_catch {X A} (f : World T → X) (p : Promise A) (h : Exn → M A) :
  (∀ e, preserves f (h e)) → preserves f (promise_catch p h).
Proof.
  intros Hh. destruct p as [a|e]; simpl; [apply preserves_ret | apply preserves_async, Hh].
Qed.

(** What follows a computation does not matter to [f] when it preserves [f]. *)
Lemma bind_preserved {X A B} (f : World T → X) (m : M A) (k : A → M B) w :
  (∀ a, preserves f (k a)) → f (snd (bind m k w)) = f (snd (m w)).
Proof.
  intros Hk. unfold bind. destruct (m w) as [[a|e] w1]; simpl; [apply Hk | reflexivity].
Qed.

Lemma async_preserved {X A} (f : World T → X) (m : M A) w :
  f (snd (async m w)) = f (snd (m w)).
Proof. unfold async. destruct (m w) as [[a|e] w1]; reflexivity. Qed.

(** The effects of the world, each with what it may change. *)

Lemma preserves_log {X} (f : World T → X) message level args :
  (∀ w l, f (with_logs w l) = f w) → preserves f (log message level args).
Proof. intros Hf w. apply Hf. Qed.

Lemma preserves_console_log {X} (f : World T → X) m :
  (∀ w l, f (with_console w l) = f w) → preserves f (console_log m).
Proof. intros Hf w. apply Hf. Qed.

Lemma preserves_getItem {X} (f : World T → X) key :
  (∀ w s ops, f (with_storage w s ops) = f w) → preserves f (localStorage_getItem key).
Proof. intros Hf w. apply Hf. Qed.

Lemma preserves_setItem {X} (f : World T → X) key value :
  (∀ w s ops, f (with_storage w s ops) = f w) → preserves f (localStorage_setItem key value).
Proof. intros Hf w. apply Hf. Qed.

Lemma preserves_generateRandomId {X} (f : World T → X) :
  (∀ w n, f (with_randomUsed w n) = f w) → preserves f generateRandomId.
Proof. intros Hf w. apply Hf. Qed.

Lemma preserves_new_object {X} (f : World T → X) :
  (∀ w h, f (with_heap w h) = f w) → preserves f new_object.
Proof. intros Hf w. apply Hf. Qed.

Lemma preserves_Object_assign {X} (f : World T → X) target source :
  (∀ w h, f (with_heap w h) = f w) → preserves f (Object_assign target source).
Proof. intros Hf w. apply Hf. Qed.

Lemma preserves_new_Socket {X} (f : World T → X) options :
  (∀ w s created, f (with_sockets w s created) = f w) → preserves f (new_Socket options).
Proof. intros Hf w. apply Hf. Qed.

Lemma preserves_Socket_send {X} (f : World T → X) ref m :
  (∀ w s, f (with_sockets w s (socketsCreated w)) = f w) → preserves f (Socket_send ref m).
Proof.
  intros Hf w. unfold Socket_send. destruct (sockets w !! ref) as [s|]; [|reflexivity].
  destruct (socket_send m s) as [r s']. apply Hf.
Qed.

Lemma preserves_addEventListener {X} (f : World T → X) name :
  (∀ w l, f (with_listeners w l) = f w) → preserves f (addEventListener name).
Proof. intros Hf w. apply Hf. Qed.

Lemma preserves_new_VueIntegration {X} (f : World T → X) vue :
  (∀ w l, f (with_vueApps w l) = f w) → preserves f (new_VueIntegration vue).
Proof. intros Hf w. apply Hf. Qed.

Lemma preserves_getGetParams {X} (f : World T → X) : preserves f getGetParams.
Proof. intros w. unfold getGetParams. destruct (truthy_string _); reflexivity. Qed.

Lemma preserves_read {X A} (f : World T → X) (g : World T → A) :
  preserves f (λ w, (Normal (g w), w)).
Proof. intros w; reflexivity. Qed.

(** Decomposes a goal [preserves f m] along the structure of [m]. *)
Ltac preserve :=
  repeat first
    [ apply preserves_ret
    | apply preserves_throw
    | apply preserves_lift
    | apply preserves_await
    | apply preserves_getGetParams
    | apply preserves_read
    | apply preserves_log; solve [reflexivity | assumption]
    | apply preserves_console_log; solve [reflexivity | assumption]
    | apply preserves_getItem; solve [reflexivity | assumption]
    | apply preserves_setItem; solve [reflexivity | assumption]
    | apply preserves_generateRandomId; solve [reflexivity | assumption]
    | apply preserves_new_object; solve [reflexivity | assumption]
    | apply preserves_Object_assign; solve [reflexivity | assumption]
    | apply preserves_new_Socket; solve [reflexivity | assumption]
    | apply preserves_Socket_send; solve [reflexivity | assumption]
    | apply preserves_addEventListener; solve [reflexivity | assumption]
    | apply preserves_new_VueIntegration; solve [reflexivity | assumption]
    | apply preserves_async
    | apply preserves_promise_catch; intros ?
    | apply preserves_bind; [|intros ?]
    | apply preserves_try_catch; [|intros ?]
    | match goal with
      | |- preserves _ (match ?x with _ => _ end) => destruct x
      end ].

(** [formatAndSend] touches the logger, the console, the heap and the
    state of the sockets, and nothing else. *)
Lemma formatAndSend_preserves {X} (f : World T → X) c error addons ctx :
  (∀ w l, f (with_logs w l) = f w) →
  (∀ w l, f (with_console w l) = f w) →
  (∀ w h, f (with_heap w h) = f w) →
  (∀ w s, f (with_sockets w s (socketsCreated w)) = f w) →
  preserves f (formatAndSend c error addons ctx).
Proof.
  intros Hlogs Hconsole Hheap Hsockets.
  unfold formatAndSend, prepareErrorFormatted, sendErrorFormatted, getContext,
    getAddons, getBacktrace.
  preserve.
Qed.

Lemma send_preserves {X} (f : World T → X) c message ctx :
  (∀ w l, f (with_logs w l) = f w) →
  (∀ w l, f (with_console w l) = f w) →
  (∀ w h, f (with_heap w h) = f w) →
  (∀ w s, f (with_sockets w s (socketsCreated w)) = f w) →
  preserves f (send c message ctx).
Proof.
  intros Hlogs Hconsole Hheap Hsockets. unfold send.
  apply preserves_bind; [|intros ?; apply preserves_ret].
  apply formatAndSend_preserves; assumption.
Qed.

(** ** [send] does not throw *)

Lemma formatAndSend_fulfils c error addons ctx w :
  fst (formatAndSend c error addons ctx w) = Normal (Fulfilled tt).
Proof.
  unfold formatAndSend, async, try_catch.
  match goal with |- context [bind ?m ?k w] => destruct (bind m k w) as [[[]|e] w1] end;
    reflexivity.
Qed.

Lemma send_normal c message ctx w : fst (send c message ctx w) = Normal tt.
Proof.
  unfold send, bind. pose proof (formatAndSend_fulfils c message None ctx w) as Hf.
  destruct (formatAndSend c message None ctx w) as [r w1]; simpl in Hf; subst r.
  reflexivity.
Qed.

(** A send the transport rejects: the handler of the rejection logs it. *)
Lemma sendErrorFormatted_rejected c errorFormatted ref s e s' w :
  transport c = Some ref →
  sockets w !! ref = Some s →
  socket_send errorFormatted s = (Normal (Rejected e), s') →
  sendErrorFormatted c errorFormatted w =
    (Normal tt,
     with_logs
       (with_sockets (with_console w (console w ++ [errorFormatted]))
          (<[ref := s']> (sockets w)) (socketsCreated w))
       (logs w ++ [{| log_message := "WebSocket sending error";
                      log_level := LogError; log_args := Some e |}])).
Proof.
  intros Href Hs Hsend. unfold sendErrorFormatted. rewrite Href.
  unfold bind, console_log, Socket_send; simpl. rewrite Hs, Hsend. reflexivity.
Qed.

(** C2. For every message, context, state of the world and behaviour of
    the transport, [send] completes normally: nothing is thrown to the
    caller. When the transport rejects a message, the rejection handler of
    [sendErrorFormatted] logs it and the call completes normally. After
    any call, a further [send] completes normally too. *)
Theorem send_never_throws (c : Catcher) (message : Message) (ctx : option loc)
    (w : World T) :
  fst (send c message ctx w) = Normal tt ∧
  (∀ errorFormatted ref s e s' w1,
     transport c = Some ref →
     sockets w1 !! ref = Some s →
     socket_send errorFormatted s = (Normal (Rejected e), s') →
     fst (sendErrorFormatted c errorFormatted w1) = Normal tt ∧
     logs (snd (sendErrorFormatted c errorFormatted w1))
       = logs w1 ++ [{| log_message := "WebSocket sending error";
                        log_level := LogError; log_args := Some e |}]) ∧
  (∀ message' ctx',
     fst (send c message' ctx' (snd (send c message ctx w))) = Normal tt).
Proof.
  split; [apply send_normal|]. split.
  - intros errorFormatted ref s e s' w1 Href Hs Hsend.
    rewrite (sendErrorFormatted_rejected _ _ _ _ _ _ _ Href Hs Hsend).
    split; reflexivity.
  - intros message' ctx'. apply send_normal.
Qed.

(** ** The merged context *)

Lemma lookup_snoc_default (h : list EventContext) (x : EventContext) (l : loc) :
  default ∅ ((h ++ [x]) !! l) = if decide (l = length h) then x else default ∅ (h !! l).
Proof.
  destruct (decide (l = length h)) as [->|Hne].
  - rewrite list_lookup_middle by reflexivity. reflexivity.
  - destruct (decide (l < length h)) as [Hlt|Hge].
    + rewrite lookup_app_l by exact Hlt. reflexivity.
    + rewrite !(proj2 (lookup_ge_None _ _)); [reflexivity | lia | rewrite length_app; simpl; lia].
Qed.

Lemma insert_snoc (h : list EventContext) (x y : EventContext) :
  <[length h := y]> (h ++ [x]) = h ++ [y].
Proof.
  rewrite insert_app_r_alt by lia. rewrite Nat.sub_diag. reflexivity.
Qed.

Lemma heap_read_fresh (w : World T) : heap_read w (length (heap w)) = ∅.
Proof.
  unfold heap_read. rewrite (proj2 (lookup_ge_None _ _)); [reflexivity | lia].
Qed.

(** [getContext] allocates the merged object after the objects of the
    heap and gives the sanitizer its entries. *)
Lemma getContext_run c ctx (w : World T) :
  getContext c ctx w
  = (sanitize (mergedContext c ctx w),
     with_heap w (heap w ++ [mergedContext c ctx w])).
Proof.
  unfold getContext, mergedContext, contextOf, bind, new_object, lift, ret.
  destruct (context c) as [l|], ctx as [l'|]; cbn;
    unfold heap_read; cbn;
    rewrite ?insert_snoc, ?lookup_snoc_default, ?insert_snoc, ?lookup_snoc_default;
    repeat match goal with
           | |- context [decide (?a = ?b)] => destruct (decide (a = b)) as [->|?]
           end;
    rewrite ?insert_snoc, ?lookup_snoc_default;
    repeat match goal with
           | |- context [decide (?a = ?b)] => destruct (decide (a = b)) as [?|?]
           end; try congruence;
    rewrite ?(proj2 (lookup_ge_None (heap w) (length (heap w)))) by lia; cbn;
    rewrite ?delete_empty, ?(right_id_L ∅ (∪)), ?(left_id_L ∅ (∪)),
      ?delete_delete_eq, ?delete_empty, ?(right_id_L ∅ (∪)), ?(left_id_L ∅ (∪)), ?(idemp_L (∪));
    reflexivity.
Qed.

(** ** What formatting computes *)

Lemma with_logs_same (w : World T) : with_logs w (logs w ++ []) = w.
Proof. destruct w; unfold with_logs; cbn. rewrite app_nil_r. reflexivity. Qed.

Lemma getBacktrace_run c error (w : World T) :
  getBacktrace c error w
  = (Normal (Fulfilled (fst (backtraceOf error))),
     with_logs w (logs w ++ snd (backtraceOf error))).
Proof.
  unfold getBacktrace, backtraceOf, async, try_catch, bind.
  destruct error as [e|s]; cbn; [|rewrite with_logs_same; reflexivity].
  destruct (stackParser_parse e) as [frames|ex]; cbn;
    [rewrite with_logs_same; reflexivity | reflexivity].
Qed.

Lemma getAddons_run c error (w : World T) :
  getAddons c error w = (Normal (addonsOf c error (window w)), w).
Proof.
  unfold getAddons, addonsOf, getParamsOf, getGetParams, bind, ret.
  destruct (truthy_string _); reflexivity.
Qed.

Lemma prepareErrorFormatted_run c error ctx (w : World T) :
  prepareErrorFormatted c error ctx w
  = (Normal (fst (formatting c error (mergedContext c ctx w) (window w))),
     afterFormatting w (mergedContext c ctx w)
       (snd (formatting c error (mergedContext c ctx w) (window w)))).
Proof.
  unfold prepareErrorFormatted, formatting, afterFormatting, applyBeforeSend, payloadOf.
  unfold async, bind at 1. rewrite getContext_run.
  destruct (sanitize (mergedContext c ctx w)) as [sanitized|e]; cbn [lift fst snd].
  - unfold bind at 1. rewrite getAddons_run.
    unfold bind. rewrite getBacktrace_run. cbn.
    destruct (beforeSend c) as [filter|]; unfold lift, ret; cbn.
    + destruct (filter _); reflexivity.
    + reflexivity.
  - unfold with_logs, with_heap; cbn. rewrite app_nil_r. reflexivity.
Qed.

(** ** What [formatAndSend] does *)

Lemma formatAndSend_run c error addons ctx (w : World T) :
  formatAndSend c error addons ctx w
  = (Normal (Fulfilled tt), afterFormatAndSend c error addons ctx w).
Proof.
  unfold formatAndSend, afterFormatAndSend, withAddons, async, try_catch, bind.
  rewrite prepareErrorFormatted_run.
  destruct (fst (formatting c error (mergedContext c ctx w) (window w))) as [m|e];
    cbn [await ret throw fst snd].
  - destruct addons as [a|];
      match goal with |- context [sendErrorFormatted c ?m ?w1] =>
        destruct (sendErrorFormatted c m w1) as [[[]|e] w2]
      end; reflexivity.
  - reflexivity.
Qed.

Lemma send_run c message ctx (w : World T) :
  send c message ctx w = (Normal tt, afterFormatAndSend c message None ctx w).
Proof. unfold send, bind. rewrite formatAndSend_run. reflexivity. Qed.

(** ** Worlds that differ in logs and in later objects only *)





Lemma agree_with_logs n (w w' : World T) l l' :
  agree n w w' → agree n (with_logs w l) (with_logs w' l').
Proof. intros H1. exact H1. Qed.


(** ** The context of an event *)




(** ** What the constructor does *)

Lemma getGeneratedUser_run (w : World T) :
  getGeneratedUser w = (Normal (fst (generatedUser w)), snd (generatedUser w)).
Proof.
  unfold getGeneratedUser, generatedUser, bind, localStorage_getItem; cbn.
  destruct (truthy_opt_string (storage w !! "hawk-user-id")); reflexivity.
Qed.

Lemma getIntegrationId_run c (w : World T) :
  getIntegrationId c w = (integrationIdOf (token c), w).
Proof.
  unfold getIntegrationId, integrationIdOf, bind, lift.
  destruct (atob _) as [raw|e]; [|reflexivity].
  destruct (JSON_parse raw) as [decoded|e]; [|reflexivity].
  destruct (get_prop decoded "integrationId") as [[v|]|e]; try reflexivity.
  destruct (truthy v); reflexivity.
Qed.

(** The three ways the constructor ends: without a token, with a throw of
    the endpoint computation, with a transport. *)
Lemma constructor_run arg (w : World T) :
  constructor arg w
  = let settings := normalizeSettings arg in
    let u := fst (userStep settings w) in
    let w1 := snd (userStep settings w) in
    if negb (truthy_opt_string (s_token settings))
    then (Normal (instanceOf settings u), with_logs w1 (logs w1 ++ [tokenMissing]))
    else match endpointOf settings with
         | Throw e => (Throw e, w1)
         | Normal endpoint =>
             (Normal (with_transport (instanceOf settings u) (length (sockets w1))),
              afterTransport settings (socketOptionsOf settings endpoint) w1)
         end.
Proof.
  unfold constructor, userStep, endpointOf. cbv zeta.
  set (settings := normalizeSettings arg).
  unfold bind at 1.
  assert (Huser : (match s_user settings with
                   | Some u => ret u
                   | None => getGeneratedUser
                   end) w
                  = (Normal (fst (match s_user settings with
                                  | Some u => (u, w)
                                  | None => generatedUser w
                                  end)),
                     snd (match s_user settings with
                          | Some u => (u, w)
                          | None => generatedUser w
                          end))).
  { destruct (s_user settings); [reflexivity | apply getGeneratedUser_run]. }
  rewrite Huser. clear Huser.
  set (u := fst _). set (w1 := snd _).
  cbn [token]. fold (instanceOf settings u).
  destruct (truthy_opt_string (s_token settings)); cbn [negb]; [|reflexivity].
  unfold bind at 1.
  destruct (truthy_opt_string (s_collectorEndpoint settings)).
  - unfold ret at 1. unfold afterTransport, socketOptionsOf, bind, new_Socket,
      initGlobalHandlers, connectVue, addEventListener, new_VueIntegration, ret.
    destruct (default false (s_disableGlobalErrorsHandling settings)), (s_vue settings);
      reflexivity.
  - unfold bind at 1. rewrite getIntegrationId_run. cbn [token instanceOf].
    destruct (integrationIdOf (s_token settings)) as [integrationId|e]; [|reflexivity].
    unfold ret at 1. unfold afterTransport, socketOptionsOf, bind, new_Socket,
      initGlobalHandlers, connectVue, addEventListener, new_VueIntegration, ret.
    destruct (default false (s_disableGlobalErrorsHandling settings)), (s_vue settings);
      reflexivity.
Qed.


Lemma userStep_socketsCreated settings (w : World T) :
  socketsCreated (snd (userStep settings w)) = socketsCreated w.
Proof.
  unfold userStep, generatedUser. destruct (s_user settings); [reflexivity|].
  destruct (truthy_opt_string _); reflexivity.
Qed.

Lemma afterTransport_socketsCreated settings options (w : World T) :
  socketsCreated (afterTransport settings options w) = socketsCreated w ++ [options].
Proof.
  unfold afterTransport.
  destruct (negb _), (s_vue settings); reflexivity.
Qed.

Lemma afterTransport_storage settings options (w : World T) :
  storage (afterTransport settings options w) = storage w ∧
  storageOps (afterTransport settings options w) = storageOps w.
Proof.
  unfold afterTransport.
  destruct (negb _), (s_vue settings); split; reflexivity.
Qed.

(** The constructor touches localStorage in its first step only. *)
Lemma constructor_storage arg (w : World T) :
  storage (snd (constructor arg w)) = storage (snd (userStep (normalizeSettings arg) w)) ∧
  storageOps (snd (constructor arg w))
    = storageOps (snd (userStep (normalizeSettings arg) w)).
Proof.
  rewrite constructor_run. cbv zeta.
  destruct (negb _); [split; reflexivity|].
  destruct (endpointOf _) as [endpoint|e]; [|split; reflexivity].
  apply afterTransport_storage.
Qed.

(** ** An invalid integration token *)

(** C3, as amended. With a token that is present, and decodes to an object
    whose [integrationId] is missing or empty, and without a
    [collectorEndpoint], the constructor throws and constructs no socket.
    In every case the constructor constructs no socket or exactly one,
    whose endpoint is the non-empty [collectorEndpoint] of the settings or
    is built from a truthy integration id. Without a token the constructor
    does not throw: it logs a warning and returns an instance that has no
    transport. *)
Theorem invalid_token_fails_fast (arg : SettingsArg) (w : World T) :
  (∀ tok raw props,
     s_token (normalizeSettings arg) = Some tok →
     truthy_string tok = true →
     atob tok = Normal raw →
     JSON_parse raw = Normal (JObj props) →
     lookup_prop "integrationId" props = None ∨
       lookup_prop "integrationId" props = Some (JStr "") →
     s_collectorEndpoint (normalizeSettings arg) = None →
     fst (constructor arg w)
       = Throw (JsError "Error" "Invalid integration token. There is no integration ID.") ∧
     sockets (snd (constructor arg w)) = sockets w ∧
     socketsCreated (snd (constructor arg w)) = socketsCreated w) ∧
  (socketsCreated (snd (constructor arg w)) = socketsCreated w ∨
   ∃ endpoint,
     socketsCreated (snd (constructor arg w))
       = socketsCreated w ++ [socketOptionsOf (normalizeSettings arg) endpoint] ∧
     ((s_collectorEndpoint (normalizeSettings arg) = Some endpoint ∧
       truthy_string endpoint = true) ∨
      ∃ integrationId,
        integrationIdOf (s_token (normalizeSettings arg)) = Normal integrationId ∧
        truthy integrationId = true ∧
        endpoint = "wss://" +:+ template_string integrationId +:+ ".k1.hawk.so:443/ws")) ∧
  (truthy_opt_string (s_token (normalizeSettings arg)) = false →
   fst (constructor arg w)
     = Normal (instanceOf (normalizeSettings arg) (fst (userStep (normalizeSettings arg) w))) ∧
   logs (snd (constructor arg w)) = logs (snd (userStep (normalizeSettings arg) w)) ++ [tokenMissing] ∧
   socketsCreated (snd (constructor arg w)) = socketsCreated w).
Proof.
  rewrite constructor_run. cbv zeta.
  set (settings := normalizeSettings arg).
  split; [|split].
  - intros tok raw props Htok Htruthy Hatob Hparse Hid Hendpoint.
    assert (Hthrow : endpointOf settings
              = Throw (JsError "Error"
                         "Invalid integration token. There is no integration ID.")).
    { unfold endpointOf, integrationIdOf. rewrite Hendpoint, Htok. cbn.
      rewrite Hatob, Hparse. cbn. destruct Hid as [-> | ->]; reflexivity. }
    rewrite Htok. cbn [truthy_opt_string]. rewrite Htruthy, Hthrow. cbn.
    split; [reflexivity|]. unfold userStep, generatedUser.
    destruct (s_user settings); [split; reflexivity|].
    destruct (truthy_opt_string _); split; reflexivity.
  - destruct (negb _).
    + left. cbn. apply userStep_socketsCreated.
    + destruct (endpointOf settings) as [endpoint|e] eqn:Hend.
      * right. exists endpoint. cbn [snd].
        rewrite afterTransport_socketsCreated, userStep_socketsCreated.
        split; [reflexivity|]. unfold endpointOf in Hend.
        destruct (s_collectorEndpoint settings) as [ep|] eqn:Hep; cbn in Hend.
        -- destruct (truthy_string ep) eqn:Hne.
           ++ left. injection Hend as <-. split; [reflexivity | exact Hne].
           ++ right. unfold integrationIdOf in *.
              destruct (atob _) as [raw|]; [|discriminate].
              destruct (JSON_parse raw) as [decoded|]; [|discriminate].
              destruct (get_prop decoded "integrationId") as [[v|]|]; try discriminate.
              destruct (truthy v) eqn:Hv; [|discriminate].
              injection Hend as <-. exists v. repeat split; assumption.
        -- right. unfold integrationIdOf in *.
           destruct (atob _) as [raw|]; [|discriminate].
           destruct (JSON_parse raw) as [decoded|]; [|discriminate].
           destruct (get_prop decoded "integrationId") as [[v|]|]; try discriminate.
           destruct (truthy v) eqn:Hv; [|discriminate].
           injection Hend as <-. exists v. repeat split; assumption.
      * left. cbn. apply userStep_socketsCreated.
  - intros Hmissing. rewrite Hmissing. cbn.
    split; [reflexivity|]. split; [reflexivity|]. apply userStep_socketsCreated.
Qed.

(** ** The endpoint of the transport *)

(** C5, as amended. For settings with a token, the one socket the
    constructor constructs gets the [collectorEndpoint] of the settings
    when that is given and not empty, and otherwise (none given, or the
    empty string) ['wss://' ++ integrationId ++ '.k1.hawk.so:443/ws'] for
    the [integrationId] string of the decoded token. Whenever the
    constructor returns, the socket is the only one it has constructed, its
    [reconnectionAttempts] and [reconnectionTimeout] are those of the
    settings, and its [onClose] is the constructor's own closure, whatever
    the settings hold: a call of it logs that the connection is lost, at
    level info, and does nothing else. No later [send] or [formatAndSend]
    constructs a socket, so the endpoint stays the one of the
    construction. *)
Theorem endpoint_fixed_at_construction (arg : SettingsArg) (w : World T) :
  truthy_opt_string (s_token (normalizeSettings arg)) = true →
  (∀ endpoint,
     s_collectorEndpoint (normalizeSettings arg) = Some endpoint →
     truthy_string endpoint = true →
     socketsCreated (snd (constructor arg w))
       = socketsCreated w
           ++ [{| collectorEndpoint := endpoint;
                  reconnectionAttempts := s_reconnectionAttempts (normalizeSettings arg);
                  reconnectionTimeout := s_reconnectionTimeout (normalizeSettings arg);
                  onClose := ConnectionLostNotice |}]) ∧
  (∀ tok raw decoded integrationId,
     truthy_opt_string (s_collectorEndpoint (normalizeSettings arg)) = false →
     s_token (normalizeSettings arg) = Some tok →
     atob tok = Normal raw →
     JSON_parse raw = Normal decoded →
     get_prop decoded "integrationId" = Normal (Some (JStr integrationId)) →
     truthy_string integrationId = true →
     socketsCreated (snd (constructor arg w))
       = socketsCreated w
           ++ [{| collectorEndpoint := "wss://" +:+ integrationId +:+ ".k1.hawk.so:443/ws";
                  reconnectionAttempts := s_reconnectionAttempts (normalizeSettings arg);
                  reconnectionTimeout := s_reconnectionTimeout (normalizeSettings arg);
                  onClose := ConnectionLostNotice |}]) ∧
  (∀ c w1,
     constructor arg w = (Normal c, w1) →
     ∃ options,
       socketsCreated w1 = socketsCreated w ++ [options] ∧
       endpointOf (normalizeSettings arg) = Normal (collectorEndpoint options) ∧
       reconnectionAttempts options = s_reconnectionAttempts (normalizeSettings arg) ∧
       reconnectionTimeout options = s_reconnectionTimeout (normalizeSettings arg) ∧
       ∀ callers (w2 : World T),
         callOnClose callers (onClose options) w2
         = (Normal tt,
            with_logs w2
              (logs w2
                 ++ [{| log_message :=
                          "Connection lost. Connection will be restored when new errors occurred";
                        log_level := LogInfo; log_args := None |}]))) ∧
  (∀ c message ctx (w2 : World T),
     socketsCreated (snd (send c message ctx w2)) = socketsCreated w2) ∧
  (∀ c error addons ctx (w2 : World T),
     socketsCreated (snd (formatAndSend c error addons ctx w2)) = socketsCreated w2).
Proof.
  intros Htoken. rewrite constructor_run. cbv zeta.
  set (settings := normalizeSettings arg) in *. rewrite Htoken. cbn [negb].
  split; [|split; [|split; [|split]]].
  - intros endpoint Hep Hne. unfold endpointOf. rewrite Hep. cbn. rewrite Hne. cbn.
    rewrite afterTransport_socketsCreated, userStep_socketsCreated. reflexivity.
  - intros tok raw decoded integrationId Hep Htok Hatob Hparse Hprop Hne.
    unfold endpointOf, integrationIdOf. rewrite Hep, Htok. cbn.
    rewrite Hatob, Hparse, Hprop. cbn. rewrite Hne. cbn.
    rewrite afterTransport_socketsCreated, userStep_socketsCreated. reflexivity.
  - intros c w1 Hrun.
    destruct (endpointOf settings) as [endpoint|e]; [|discriminate Hrun].
    injection Hrun as _ Hw1. subst w1.
    exists (socketOptionsOf settings endpoint).
    rewrite afterTransport_socketsCreated, userStep_socketsCreated.
    split; [reflexivity|]. split; [reflexivity|]. split; [reflexivity|].
    split; [reflexivity|]. intros callers w2. reflexivity.
  - intros c message ctx w2. apply (send_preserves socketsCreated); reflexivity.
  - intros c error addons ctx w2.
    apply (formatAndSend_preserves socketsCreated); reflexivity.
Qed.

(** ** The persisted user id *)

(** C6. With a user in the settings the constructor neither reads nor
    writes localStorage. Without one it reads the key ['hawk-user-id']
    once; when an id is stored there (a string that is not empty) that id
    is the user's and nothing is written; otherwise the next generated id
    is written under the key, once, and is the user's. *)
Theorem user_id_persistence (arg : SettingsArg) (w : World T) :
  match s_user (normalizeSettings arg) with
  | Some u =>
      storageOps (snd (constructor arg w)) = storageOps w ∧
      storage (snd (constructor arg w)) = storage w ∧
      match fst (constructor arg w) with
      | Normal c => user c = Some u
      | Throw _ => True
      end
  | None =>
      fst (getGeneratedUser w) = Normal (fst (generatedUser w)) ∧
      match fst (constructor arg w) with
      | Normal c => user c = Some (fst (generatedUser w))
      | Throw _ => True
      end ∧
      if truthy_opt_string (storage w !! "hawk-user-id")
      then
        user_id (fst (generatedUser w)) = default "" (storage w !! "hawk-user-id") ∧
        storageOps (snd (constructor arg w)) = storageOps w ++ [GetItem "hawk-user-id"] ∧
        storage (snd (constructor arg w)) = storage w
      else
        user_id (fst (generatedUser w)) = randomIds w (randomUsed w) ∧
        storageOps (snd (constructor arg w))
          = storageOps w ++ [GetItem "hawk-user-id";
                             SetItem "hawk-user-id" (randomIds w (randomUsed w))] ∧
        storage (snd (constructor arg w))
          = <[ "hawk-user-id" := randomIds w (randomUsed w) ]> (storage w)
  end.
Proof.
  destruct (constructor_storage arg w) as [Hstorage Hops].
  rewrite Hstorage, Hops.
  assert (Huser : match fst (constructor arg w) with
                  | Normal c => user c = Some (fst (userStep (normalizeSettings arg) w))
                  | Throw _ => True
                  end).
  { rewrite constructor_run. cbv zeta. destruct (negb _); [reflexivity|].
    destruct (endpointOf _); [reflexivity | exact I]. }
  unfold userStep in *.
  destruct (s_user (normalizeSettings arg)) as [u|].
  - repeat split. exact Huser.
  - rewrite getGeneratedUser_run. split; [reflexivity|]. split; [exact Huser|].
    unfold generatedUser.
    destruct (truthy_opt_string (storage w !! "hawk-user-id")); cbn.
    + repeat split.
    + rewrite <- app_assoc. repeat split.
Qed.

(** ** The formatted event *)

(** C8, as amended. The payload [prepareErrorFormatted] builds: for a
    string, the title is the string, the type and the backtrace are
    [null]; for an [Error], the title is its message and the type its name.
    The payload of the message is this one when the catcher has no
    [beforeSend], and what [beforeSend] makes of this one when it has. *)
Theorem formatted_title_type_backtrace (c : Catcher) (error : Message)
    (ctx : option loc) (w : World T) (m : CatcherMessage) :
  fst (prepareErrorFormatted c error ctx w) = Normal (Fulfilled m) →
  ∃ payload,
    applyBeforeSend (beforeSend c) payload = Normal (msg_payload m) ∧
    (beforeSend c = None → msg_payload m = payload) ∧
    ev_title payload = getTitle error ∧
    ev_type payload = getType error ∧
    match error with
    | MString s =>
        getTitle error = s ∧ getType error = None ∧ ev_backtrace payload = None ∧
        fst (getBacktrace c error w) = Normal (Fulfilled None)
    | MError e =>
        getTitle error = error_message e ∧ getType error = Some (error_name e)
    end.
Proof.
  rewrite prepareErrorFormatted_run. cbn [fst]. unfold formatting.
  destruct (sanitize _) as [sanitized|e0]; [|discriminate]. cbn [fst].
  destruct (applyBeforeSend _ _) as [payload|e0] eqn:Hfilter; [|discriminate].
  intros Heq. injection Heq as <-. cbn [msg_payload].
  eexists. split; [exact Hfilter|]. split.
  - intros Hnone. rewrite Hnone in Hfilter. cbn in Hfilter. congruence.
  - split; [reflexivity|]. split; [reflexivity|].
    destruct error as [e|s]; cbn; repeat split.
Qed.

End CatcherFacts.

(** * The catcher and callbacks that use their receiver *)

Section ReceiverFacts.
Context {T : Type} `{!Transport T} `{!Platform} `{!Modules}.

Lemma getBacktrace_awaited c error (w : World T) :
  (let! p := getBacktrace c error in await p) w
  = (Normal (fst (backtraceOf error)), with_logs w (logs w ++ snd (backtraceOf error))).
Proof. unfold bind. rewrite getBacktrace_run. reflexivity. Qed.

Lemma receiver_prepare_run method c error ctx (w : World T) :
  Receiver.prepareErrorFormatted method error ctx (c, w)
  = (Normal (fst (fst (Receiver.formatting method c error (mergedContext c ctx w)
                         (window w)))),
     (snd (fst (Receiver.formatting method c error (mergedContext c ctx w) (window w))),
      afterFormatting w (mergedContext c ctx w)
        (snd (Receiver.formatting method c error (mergedContext c ctx w) (window w))))).
Proof.
  unfold Receiver.prepareErrorFormatted, Receiver.formatting, afterFormatting,
    Receiver.callOf, payloadOf.
  unfold async, bind at 1. unfold Receiver.this at 1. cbn [fst snd].
  unfold bind at 1. unfold Receiver.onPage at 1. cbn [fst snd].
  rewrite getContext_run. cbn [fst snd].
  destruct (sanitize (mergedContext c ctx w)) as [sanitized|e]; cbn [fst snd].
  - unfold bind at 1. unfold Receiver.onPage at 1. cbn [fst snd].
    rewrite getAddons_run. cbn [fst snd].
    unfold bind at 1. unfold Receiver.onPage at 1. cbn [fst snd].
    rewrite getBacktrace_awaited. cbn [fst snd].
    unfold bind, Receiver.callBeforeSend, Receiver.this, ret. cbn [fst snd].
    destruct method as [f|]; cbn [fst snd].
    + destruct (f c _) as [[payload|e] self]; reflexivity.
    + reflexivity.
  - unfold with_logs, with_heap; cbn. rewrite app_nil_r. reflexivity.
Qed.

Lemma receiver_formatAndSend_run method c error addons ctx (w : World T) :
  Receiver.formatAndSend method error addons ctx (c, w)
  = (Normal (Fulfilled tt), Receiver.afterFormatAndSend method c error addons ctx w).
Proof.
  unfold Receiver.formatAndSend, Receiver.afterFormatAndSend, withAddons, async,
    try_catch, bind.
  rewrite receiver_prepare_run.
  destruct (Receiver.formatting method c error (mergedContext c ctx w) (window w))
    as [[[m|e] self] entries]; cbn [await ret throw fst snd Receiver.this Receiver.onPage].
  - destruct addons as [a|];
      match goal with |- context [sendErrorFormatted self ?m ?w1] =>
        destruct (sendErrorFormatted self m w1) as [[[]|e] w2]
      end; reflexivity.
  - reflexivity.
Qed.


(** A callback that is a function of the event: the methods on the catcher
    and the page do what the methods on the page do, and leave the catcher
    as it is. *)
Lemma receiver_formatting_methodOf c error merged win :
  Receiver.formatting (methodOf <$> beforeSend c) c error merged win
  = (fst (formatting c error merged win), c, snd (formatting c error merged win)).
Proof.
  unfold Receiver.formatting, formatting, Receiver.callOf, applyBeforeSend, methodOf.
  destruct (sanitize merged) as [sanitized|e]; [|reflexivity].
  destruct (beforeSend c) as [filter|]; cbn; [|reflexivity].
  destruct (filter _); reflexivity.
Qed.

Lemma receiver_prepare_methodOf c error ctx (w : World T) :
  Receiver.prepareErrorFormatted (methodOf <$> beforeSend c) error ctx (c, w)
  = (fst (prepareErrorFormatted c error ctx w),
     (c, snd (prepareErrorFormatted c error ctx w))).
Proof.
  rewrite receiver_prepare_run, prepareErrorFormatted_run, receiver_formatting_methodOf.
  reflexivity.
Qed.

Lemma receiver_formatAndSend_methodOf c error addons ctx (w : World T) :
  Receiver.formatAndSend (methodOf <$> beforeSend c) error addons ctx (c, w)
  = (fst (formatAndSend c error addons ctx w),
     (c, snd (formatAndSend c error addons ctx w))).
Proof.
  rewrite receiver_formatAndSend_run, formatAndSend_run. cbn [fst snd].
  unfold Receiver.afterFormatAndSend, afterFormatAndSend.
  rewrite receiver_formatting_methodOf. cbn [fst snd].
  destruct (fst (formatting c error (mergedContext c ctx w) (window w))) as [m|e];
    [|reflexivity].
  match goal with |- context [sendErrorFormatted c ?m ?w1] =>
    destruct (sendErrorFormatted c m w1) as [[[]|e] w2]
  end; reflexivity.
Qed.

Lemma receiver_send_methodOf c message ctx (w : World T) :
  Receiver.send (methodOf <$> beforeSend c) message ctx (c, w)
  = (fst (send c message ctx w), (c, snd (send c message ctx w))).
Proof.
  unfold Receiver.send, send, bind.
  rewrite receiver_formatAndSend_methodOf.
  destruct (formatAndSend c message None ctx w) as [[p|e] w1]; reflexivity.
Qed.



(** The failures that leave the catcher as it was: a throwing sanitizer,
    before [beforeSend] is called, and a callback that is a function of the
    event. *)
Lemma receiver_kept method c error ctx (w : World T) :
  (∀ e, sanitize (mergedContext c ctx w) = Throw e →
     fst (snd (Receiver.prepareErrorFormatted method error ctx (c, w))) = c) ∧
  (method = None →
     fst (snd (Receiver.prepareErrorFormatted method error ctx (c, w))) = c) ∧
  (∀ filter, method = Some (methodOf filter) →
     fst (snd (Receiver.prepareErrorFormatted method error ctx (c, w))) = c).
Proof.
  rewrite receiver_prepare_run. cbn [fst snd]. unfold Receiver.formatting.
  split; [|split].
  - intros e ->. reflexivity.
  - intros ->. destruct (sanitize _); reflexivity.
  - intros filter ->. destruct (sanitize _); reflexivity.
Qed.



End ReceiverFacts.

(** * Further properties of the catcher *)

(** ** The parameters of the query string *)

Lemma split_on_nonempty sep s : split_on sep s ≠ [].
Proof.
  destruct s as [|ch rest]; cbn; [discriminate|].
  destruct (Ascii.eqb ch sep); [discriminate|].
  destruct (split_on sep rest); discriminate.
Qed.

(** A string without the separator is one piece. *)
Lemma split_on_absent sep s : occurs sep s = false → split_on sep s = [s].
Proof.
  induction s as [|ch rest IH]; cbn -[Ascii.eqb]; [reflexivity|].
  intros Hocc. apply orb_false_elim in Hocc as [Hch Hrest].
  rewrite Hch, (IH Hrest). reflexivity.
Qed.

(** The first piece ends at the first separator. *)
Lemma split_on_append sep a b :
  occurs sep a = false →
  split_on sep (a +:+ String sep b) = a :: split_on sep b.
Proof.
  induction a as [|ch rest IH].
  - intros _. change ("" +:+ String sep b) with (String sep b).
    cbn -[Ascii.eqb]. rewrite Ascii.eqb_refl. reflexivity.
  - intros Hocc. cbn -[Ascii.eqb] in Hocc.
    apply orb_false_elim in Hocc as [Hch Hrest].
    change (String ch rest +:+ String sep b) with (String ch (rest +:+ String sep b)).
    cbn -[Ascii.eqb String.append]. rewrite Hch, (IH Hrest). reflexivity.
Qed.

Lemma addGetParam_insert (acc : gmap string (option string)) pair :
  addGetParam acc pair = assignParam acc (pairKey pair) (pairValue pair).
Proof.
  unfold addGetParam, pairKey, pairValue.
  pose proof (split_on_nonempty "="%char pair) as Hne.
  destruct (split_on "="%char pair) as [|key [|value rest]]; [congruence | | ]; reflexivity.
Qed.

Lemma find_snoc {A} (P : A → bool) (l : list A) (x : A) :
  List.find P (l ++ [x])
  = match List.find P l with
    | Some y => Some y
    | None => if P x then Some x else None
    end.
Proof.
  induction l as [|y l IH]; cbn; [reflexivity|].
  destruct (P y); [reflexivity | exact IH].
Qed.

(** Folding the pairs into an object: the last pair with a key decides. *)
Lemma fold_addGetParam_lookup pairs (acc : gmap string (option string)) key :
  key ≠ "__proto__" →
  fold_left addGetParam pairs acc !! key
  = match List.find (λ pair, bool_decide (pairKey pair = key)) (rev pairs) with
    | Some found => Some (pairValue found)
    | None => acc !! key
    end.
Proof.
  intros Hproto.
  revert acc; induction pairs as [|item pairs IH]; intros acc; cbn; [reflexivity|].
  rewrite IH, find_snoc.
  destruct (List.find _ (rev pairs)); [reflexivity|].
  rewrite addGetParam_insert. unfold assignParam.
  case_bool_decide as Hkey.
  - subst key. rewrite decide_False by exact Hproto. apply lookup_insert_eq.
  - destruct (decide (pairKey item = "__proto__")); [reflexivity|].
    apply lookup_insert_ne, Hkey.
Qed.

Section CatcherExtras.
Context {T : Type} `{!Transport T} `{!Platform} `{!Modules}.

Notation M := (M (World T)).

(** X1. [getGetParams] gives [null] exactly when nothing follows the first
    character of [location.search] (the search is empty, or a lone question
    mark); it changes nothing of the world. *)
Theorem getGetParams_null (w : World T) :
  snd (getGetParams w) = w ∧
  (fst (getGetParams w) = Normal None ↔ String.length (location_search (window w)) ≤ 1).
Proof.
  unfold getGetParams.
  destruct (location_search (window w)) as [|first [|second rest]]; cbn.
  - split; [reflexivity|]. split; [lia | reflexivity].
  - split; [reflexivity|]. split; [lia | reflexivity].
  - split; [reflexivity|]. split; [discriminate | lia].
Qed.

(** X2. When something follows the first character of [location.search],
    [getGetParams] gives an object in which a key has the value of the last
    pair of that key among the pairs separated by an ampersand, and a key
    of no pair is absent. (The key [__proto__] is left out: JavaScript
    takes an assignment to it for the prototype of the object.) *)
Theorem getGetParams_last_pair_wins (w : World T) :
  truthy_string (substr1 (location_search (window w))) = true →
  ∃ params,
    fst (getGetParams w) = Normal (Some params) ∧
    ∀ key,
      key ≠ "__proto__" →
      params !! key
      = pairValue <$>
          List.find (λ pair, bool_decide (pairKey pair = key))
            (rev (split_on "&"%char (substr1 (location_search (window w))))).
Proof.
  intros Hsearch. unfold getGetParams. rewrite Hsearch. cbn.
  eexists. split; [reflexivity|]. intros key Hproto.
  rewrite (fold_addGetParam_lookup _ _ _ Hproto), lookup_empty.
  destruct (List.find _ _); reflexivity.
Qed.

(** X3. One step of the reduction of [getGetParams], for a key other than
    [__proto__]: a pair without an equals sign sets its key to
    [undefined]; a pair [key=value] sets the key to the value; of a pair
    with a second equals sign only what stands between the first and the
    second is kept as the value. *)
Theorem addGetParam_forms (acc : gmap string (option string)) (key value rest : string) :
  key ≠ "__proto__" →
  occurs "="%char key = false →
  occurs "="%char value = false →
  addGetParam acc key = <[key := None]> acc ∧
  addGetParam acc (key +:+ String "="%char value) = <[key := Some value]> acc ∧
  addGetParam acc (key +:+ String "="%char (value +:+ String "="%char rest))
    = <[key := Some value]> acc.
Proof.
  intros Hproto Hkey Hvalue. unfold addGetParam.
  rewrite (split_on_absent _ _ Hkey).
  rewrite !(split_on_append _ _ _ Hkey), (split_on_absent _ _ Hvalue).
  rewrite (split_on_append _ _ _ Hvalue).
  unfold assignParam. rewrite !decide_False by exact Hproto.
  repeat split.
Qed.

(** ** What the constructor registers *)

Lemma userStep_page settings (w : World T) :
  sockets (snd (userStep settings w)) = sockets w ∧
  listeners (snd (userStep settings w)) = listeners w ∧
  vueApps (snd (userStep settings w)) = vueApps w.
Proof.
  unfold userStep, generatedUser. destruct (s_user settings); [repeat split|].
  destruct (truthy_opt_string _); repeat split.
Qed.

(** X4. A construction that sets a transport constructs exactly one
    socket, to which the transport refers, then registers the [error] and
    [unhandledrejection] handlers, in this order, unless
    [disableGlobalErrorsHandling] is set, and the Vue integration when the
    settings have a Vue app. Without a token, or when it throws, the
    constructor registers nothing and constructs no socket. *)
Theorem constructor_registrations (arg : SettingsArg) (w : World T) :
  match fst (constructor arg w) with
  | Normal c =>
      match transport c with
      | Some ref =>
          (∃ options,
             socketsCreated (snd (constructor arg w)) = socketsCreated w ++ [options] ∧
             sockets (snd (constructor arg w)) = sockets w ++ [socket_new options] ∧
             sockets (snd (constructor arg w)) !! ref = Some (socket_new options)) ∧
          listeners (snd (constructor arg w))
            = listeners w
                ++ (if default false (s_disableGlobalErrorsHandling (normalizeSettings arg))
                    then [] else ["error"; "unhandledrejection"]) ∧
          vueApps (snd (constructor arg w))
            = vueApps w
                ++ match s_vue (normalizeSettings arg) with
                   | Some vue => [vue]
                   | None => []
                   end
      | None =>
          sockets (snd (constructor arg w)) = sockets w ∧
          listeners (snd (constructor arg w)) = listeners w ∧
          vueApps (snd (constructor arg w)) = vueApps w
      end
  | Throw _ =>
      sockets (snd (constructor arg w)) = sockets w ∧
      listeners (snd (constructor arg w)) = listeners w ∧
      vueApps (snd (constructor arg w)) = vueApps w
  end.
Proof.
  rewrite constructor_run. cbv zeta.
  destruct (userStep_page (normalizeSettings arg) w) as (Hs & Hl & Hv).
  destruct (negb _); [cbn; repeat split; assumption|].
  destruct (endpointOf _) as [endpoint|e]; [|cbn; repeat split; assumption].
  cbn [fst snd with_transport transport].
  rewrite afterTransport_socketsCreated, userStep_socketsCreated.
  unfold afterTransport.
  destruct (default false (s_disableGlobalErrorsHandling (normalizeSettings arg)));
    destruct (s_vue (normalizeSettings arg)); cbn;
    rewrite ?Hs, ?Hl, ?Hv, ?app_nil_r, <- ?app_assoc; cbn;
    (split; [eexists; split; [reflexivity|]; split; [reflexivity|];
             apply list_lookup_middle; reflexivity
            | split; reflexivity]).
Qed.

(** ** The user id over two constructions *)

(** X5. An id generated or found by a construction without a user is the
    id of the next construction without a user on the same page, when it
    is not empty; that construction reads localStorage once and writes
    nothing. *)
Theorem user_id_reused (arg1 arg2 : SettingsArg) (w w1 w2 : World T)
    (c1 c2 : Catcher) (u : AffectedUser) :
  s_user (normalizeSettings arg1) = None →
  s_user (normalizeSettings arg2) = None →
  constructor arg1 w = (Normal c1, w1) →
  constructor arg2 w1 = (Normal c2, w2) →
  user c1 = Some u →
  truthy_string (user_id u) = true →
  user c2 = Some u ∧
  storage w2 = storage w1 ∧
  storageOps w2 = storageOps w1 ++ [GetItem "hawk-user-id"].
Proof.
  intros Hu1 Hu2 Hc1 Hc2 Huser Hid.
  pose proof (constructor_storage arg1 w) as [Hst1 _].
  pose proof (constructor_storage arg2 w1) as [Hst2 Hops2].
  rewrite Hc1 in Hst1. rewrite Hc2 in Hst2, Hops2. cbn [snd] in *.
  assert (Hfirst : user c1 = Some (fst (userStep (normalizeSettings arg1) w))).
  { revert Hc1. rewrite constructor_run. cbv zeta. destruct (negb _).
    - intros Heq. injection Heq as <- _. reflexivity.
    - destruct (endpointOf _); [|discriminate].
      intros Heq. injection Heq as <- _. reflexivity. }
  assert (Hsecond : user c2 = Some (fst (userStep (normalizeSettings arg2) w1))).
  { revert Hc2. rewrite constructor_run. cbv zeta. destruct (negb _).
    - intros Heq. injection Heq as <- _. reflexivity.
    - destruct (endpointOf _); [|discriminate].
      intros Heq. injection Heq as <- _. reflexivity. }
  unfold userStep in *. rewrite Hu1 in *. rewrite Hu2 in *.
  rewrite Huser in Hfirst. injection Hfirst as Hfirst.
  assert (Hstored : storage w1 !! "hawk-user-id" = Some (user_id u)).
  { rewrite Hst1, Hfirst. unfold generatedUser.
    destruct (storage w !! "hawk-user-id") as [stored|] eqn:Hw; cbn.
    - destruct (truthy_string stored); cbn; [exact Hw | apply lookup_insert_eq].
    - apply lookup_insert_eq. }
  rewrite Hsecond, Hst2, Hops2. unfold generatedUser at 1 2 3.
  rewrite Hstored. cbn [truthy_opt_string]. rewrite Hid. cbn.
  split; [|split; reflexivity].
  f_equal. rewrite Hfirst. unfold generatedUser.
  destruct (truthy_opt_string (storage w !! "hawk-user-id")); reflexivity.
Qed.

(** ** What is handed to the transport *)

Lemma prepare_fulfils c message ctx (w : World T) m :
  fst (prepareErrorFormatted c message ctx w) = Normal (Fulfilled m) →
  fst (formatting c message (mergedContext c ctx w) (window w)) = Fulfilled m.
Proof. rewrite prepareErrorFormatted_run. cbn. congruence. Qed.

Lemma prepare_world c message ctx (w : World T) :
  console (snd (prepareErrorFormatted c message ctx w)) = console w ∧
  sockets (snd (prepareErrorFormatted c message ctx w)) = sockets w ∧
  socketsCreated (snd (prepareErrorFormatted c message ctx w)) = socketsCreated w.
Proof. rewrite prepareErrorFormatted_run. repeat split. Qed.

(** [sendErrorFormatted] with a transport: one call of the socket's [send]. *)
Lemma sendErrorFormatted_run c m ref s (w : World T) :
  transport c = Some ref →
  sockets w !! ref = Some s →
  sendErrorFormatted c m w
  = match fst (socket_send m s) with
    | Normal (Fulfilled _) =>
        (Normal tt,
         with_sockets (with_console w (console w ++ [m]))
           (<[ref := snd (socket_send m s)]> (sockets w)) (socketsCreated w))
    | Normal (Rejected e) =>
        (Normal tt,
         with_logs
           (with_sockets (with_console w (console w ++ [m]))
              (<[ref := snd (socket_send m s)]> (sockets w)) (socketsCreated w))
           (logs w ++ [{| log_message := "WebSocket sending error";
                          log_level := LogError; log_args := Some e |}]))
    | Throw e =>
        (Throw e,
         with_sockets (with_console w (console w ++ [m]))
           (<[ref := snd (socket_send m s)]> (sockets w)) (socketsCreated w))
    end.
Proof.
  intros Href Hs. unfold sendErrorFormatted, bind, console_log, Socket_send.
  rewrite Href. cbn. rewrite Hs.
  destruct (socket_send m s) as [[[[]|e]|e] s']; reflexivity.
Qed.

(** What [formatAndSend] does with a formatted event and a transport. *)
Lemma formatAndSend_delivers c message addons ctx (w : World T) m ref s :
  fst (prepareErrorFormatted c message ctx w) = Normal (Fulfilled m) →
  transport c = Some ref →
  sockets w !! ref = Some s →
  sockets (snd (formatAndSend c message addons ctx w))
    = <[ref := snd (socket_send (withAddons m addons) s)]> (sockets w) ∧
  console (snd (formatAndSend c message addons ctx w))
    = console w ++ [withAddons m addons] ∧
  logs (snd (formatAndSend c message addons ctx w))
    = logs (snd (prepareErrorFormatted c message ctx w))
        ++ match fst (socket_send (withAddons m addons) s) with
           | Normal (Fulfilled _) => []
           | Normal (Rejected e) =>
               [{| log_message := "WebSocket sending error"; log_level := LogError;
                   log_args := Some e |}]
           | Throw e => [internalError e]
           end.
Proof.
  intros Hm Href Hs. rewrite formatAndSend_run. cbn [snd]. unfold afterFormatAndSend.
  rewrite (prepare_fulfils _ _ _ _ _ Hm).
  rewrite prepareErrorFormatted_run. cbn [snd].
  set (w1 := afterFormatting _ _ _).
  assert (Hs1 : sockets w1 !! ref = Some s) by exact Hs.
  rewrite (sendErrorFormatted_run c _ ref s w1 Href Hs1).
  destruct (fst (socket_send (withAddons m addons) s)) as [[[]|e]|e]; cbn;
    rewrite ?app_nil_r; repeat split.
Qed.

(** X6. When the event is formatted and the catcher has a transport,
    [send] logs the formatted message to the console and calls the
    socket's [send] once, with that message. It logs nothing more when the
    socket accepts it, a sending error when the socket rejects it, and an
    internal error when the call throws. *)
Theorem send_hands_over (c : Catcher) (message : Message) (ctx : option loc)
    (w : World T) (m : CatcherMessage) (ref : nat) (s : T) :
  fst (prepareErrorFormatted c message ctx w) = Normal (Fulfilled m) →
  transport c = Some ref →
  sockets w !! ref = Some s →
  sockets (snd (send c message ctx w)) = <[ref := snd (socket_send m s)]> (sockets w) ∧
  console (snd (send c message ctx w)) = console w ++ [m] ∧
  logs (snd (send c message ctx w))
    = logs (snd (prepareErrorFormatted c message ctx w))
        ++ match fst (socket_send m s) with
           | Normal (Fulfilled _) => []
           | Normal (Rejected e) =>
               [{| log_message := "WebSocket sending error"; log_level := LogError;
                   log_args := Some e |}]
           | Throw e =>
               [{| log_message := "Internal error ლ(´ڡ`ლ)"; log_level := LogError;
                   log_args := Some e |}]
           end.
Proof.
  intros Hm Href Hs.
  assert (Hsend : snd (send c message ctx w) = snd (formatAndSend c message None ctx w))
    by (rewrite send_run, formatAndSend_run; reflexivity).
  rewrite Hsend. exact (formatAndSend_delivers c message None ctx w m ref s Hm Href Hs).
Qed.

(** X7. A catcher constructed without a token has no transport: each
    [send] completes, touches no socket, logs the formatted message to the
    console and then logs a [TypeError] as an internal error. *)
Theorem send_without_token (arg : SettingsArg) (w0 w1 : World T) (c : Catcher) :
  constructor arg w0 = (Normal c, w1) →
  truthy_opt_string (s_token (normalizeSettings arg)) = false →
  transport c = None ∧
  ∃ text,
    ∀ message ctx (w : World T),
      fst (send c message ctx w) = Normal tt ∧
      sockets (snd (send c message ctx w)) = sockets w ∧
      ∀ m,
        fst (prepareErrorFormatted c message ctx w) = Normal (Fulfilled m) →
        console (snd (send c message ctx w)) = console w ++ [m] ∧
        logs (snd (send c message ctx w))
          = logs (snd (prepareErrorFormatted c message ctx w))
              ++ [{| log_message := "Internal error ლ(´ڡ`ლ)"; log_level := LogError;
                     log_args := Some (JsError "TypeError" text) |}].
Proof.
  intros Hc Htoken.
  assert (Hnone : transport c = None).
  { revert Hc. rewrite constructor_run. cbv zeta. rewrite Htoken. cbn.
    intros Heq. injection Heq as <- _. reflexivity. }
  split; [exact Hnone|]. exists "Cannot read properties of undefined".
  intros message ctx w.
  split; [apply send_normal|].
  assert (Hrun : ∀ m (w' : World T),
            sendErrorFormatted c m w'
            = (Throw (JsError "TypeError" "Cannot read properties of undefined"),
               with_console w' (console w' ++ [m]))).
  { intros m w'. unfold sendErrorFormatted, bind, console_log. rewrite Hnone.
    reflexivity. }
  rewrite send_run. cbn [snd]. unfold afterFormatAndSend.
  split.
  - destruct (fst (formatting c message (mergedContext c ctx w) (window w))) as [m|e];
      [rewrite Hrun|]; reflexivity.
  - intros m Hm. rewrite (prepare_fulfils _ _ _ _ _ Hm).
    rewrite prepareErrorFormatted_run. cbn [snd withAddons]. rewrite Hrun.
    split; reflexivity.
Qed.


(** ** The fields of the payload *)

Lemma getGetParams_run (w : World T) :
  getGetParams w = (Normal (getParamsOf (window w)), w).
Proof.
  unfold getGetParams, getParamsOf. destruct (truthy_string _); reflexivity.
Qed.

(** The payload a formatted event was built from. *)
Lemma prepare_payload c error ctx (w : World T) m :
  fst (prepareErrorFormatted c error ctx w) = Normal (Fulfilled m) →
  ∃ sanitized,
    sanitize (mergedContext c ctx w) = Normal sanitized ∧
    applyBeforeSend (beforeSend c) (payloadOf c error sanitized (window w))
      = Normal (msg_payload m) ∧
    logs (snd (prepareErrorFormatted c error ctx w)) = logs w ++ snd (backtraceOf error).
Proof.
  rewrite prepareErrorFormatted_run. cbn [fst snd]. unfold formatting.
  destruct (sanitize _) as [sanitized|e0]; [|discriminate]. cbn [fst snd].
  destruct (applyBeforeSend _ _) as [payload|e0] eqn:Hfilter; [|discriminate].
  intros Heq. injection Heq as <-.
  exists sanitized. split; [reflexivity|]. split; [exact Hfilter | reflexivity].
Qed.

(** X9. The payload [prepareErrorFormatted] builds, which is the payload
    of the message unless [beforeSend] replaces it: the release is that of
    the catcher, or [null] when it is missing or empty; the user is the
    catcher's; the context is the sanitized merge of the contexts; the
    addons hold the size of the window, the user agent, the address of the
    page, the query parameters when there are some, the raw data of the
    event in debug mode only ([null] for a string), and nothing of an
    integration. *)
Theorem event_payload (c : Catcher) (error : Message) (ctx : option loc)
    (w : World T) (m : CatcherMessage) :
  fst (prepareErrorFormatted c error ctx w) = Normal (Fulfilled m) →
  ∃ payload,
    applyBeforeSend (beforeSend c) payload = Normal (msg_payload m) ∧
    ev_release payload
      = match release c with
        | Some r => if truthy_string r then Some r else None
        | None => None
        end ∧
    ev_user payload = user c ∧
    sanitize (mergedContext c ctx w) = Normal (ev_context payload) ∧
    addons_innerWidth (ev_addons payload) = innerWidth (window w) ∧
    addons_innerHeight (ev_addons payload) = innerHeight (window w) ∧
    addons_userAgent (ev_addons payload) = userAgent (window w) ∧
    addons_url (ev_addons payload) = location_href (window w) ∧
    fst (getGetParams w) = Normal (addons_get (ev_addons payload)) ∧
    addons_RAW_EVENT_DATA (ev_addons payload)
      = (if debug c
         then Some match error with
                   | MError e => Some {| raw_name := error_name e;
                                         raw_message := error_message e;
                                         raw_stack := error_stack e |}
                   | MString _ => None
                   end
         else None) ∧
    addons_vue (ev_addons payload) = None.
Proof.
  intros Hm. destruct (prepare_payload c error ctx w m Hm) as (sanitized & Hs & Hfilter & _).
  exists (payloadOf c error sanitized (window w)).
  split; [exact Hfilter|]. rewrite getGetParams_run. cbn.
  split; [unfold getRelease; destruct (release c) as [r|]; cbn;
          [destruct (truthy_string r)|]; reflexivity|].
  split; [reflexivity|]. split; [exact Hs|].
  repeat split.
Qed.

(** X10. The backtrace of the payload [prepareErrorFormatted] builds: the
    frames of the stack parser when it parses the error, and then nothing
    is logged; [null] after one logged warning when the parser fails;
    [null] for a string, and then nothing is logged. A failing parser does
    not make the formatting fail: whenever the sanitizer returns and
    [beforeSend] is missing or returns, the promise is fulfilled with what
    [beforeSend] leaves of the payload, whatever the parser has done. *)
Theorem event_backtrace (c : Catcher) (error : Message) (ctx : option loc)
    (w : World T) :
  (∀ m,
     fst (prepareErrorFormatted c error ctx w) = Normal (Fulfilled m) →
     ∃ payload,
       applyBeforeSend (beforeSend c) payload = Normal (msg_payload m) ∧
       match error with
       | MString _ =>
           ev_backtrace payload = None ∧
           logs (snd (prepareErrorFormatted c error ctx w)) = logs w
       | MError e =>
           match stackParser_parse e with
           | Fulfilled frames =>
               ev_backtrace payload = Some frames ∧
               logs (snd (prepareErrorFormatted c error ctx w)) = logs w
           | Rejected ex =>
               ev_backtrace payload = None ∧
               logs (snd (prepareErrorFormatted c error ctx w))
                 = logs w ++ [{| log_message := "Can not parse stack:";
                                 log_level := LogWarn; log_args := Some ex |}]
           end
       end) ∧
  (∀ sanitized,
     sanitize (mergedContext c ctx w) = Normal sanitized →
     ev_backtrace (payloadOf c error sanitized (window w))
       = match error with
         | MString _ => None
         | MError e =>
             match stackParser_parse e with
             | Fulfilled frames => Some frames
             | Rejected _ => None
             end
         end ∧
     logs (snd (prepareErrorFormatted c error ctx w))
       = logs w
           ++ match error with
              | MString _ => []
              | MError e =>
                  match stackParser_parse e with
                  | Fulfilled _ => []
                  | Rejected ex => [{| log_message := "Can not parse stack:";
                                       log_level := LogWarn; log_args := Some ex |}]
                  end
              end ∧
     ∀ filtered,
       applyBeforeSend (beforeSend c) (payloadOf c error sanitized (window w))
         = Normal filtered →
       fst (prepareErrorFormatted c error ctx w)
         = Normal (Fulfilled {| msg_token := token c; msg_catcherType := type c;
                                msg_payload := filtered |})).
Proof.
  split.
  - intros m Hm.
    destruct (prepare_payload c error ctx w m Hm) as (sanitized & _ & Hfilter & Hlogs).
    exists (payloadOf c error sanitized (window w)).
    split; [exact Hfilter|]. rewrite Hlogs. unfold payloadOf, backtraceOf; cbn.
    destruct error as [e|s]; [destruct (stackParser_parse e)|]; cbn;
      rewrite ?app_nil_r; split; reflexivity.
  - intros sanitized Hs.
    rewrite prepareErrorFormatted_run. cbn [fst snd]. unfold formatting.
    rewrite Hs. cbn [fst snd]. split; [|split].
    + unfold payloadOf, backtraceOf; cbn.
      destruct error as [e|s]; [destruct (stackParser_parse e)|]; reflexivity.
    + unfold afterFormatting, backtraceOf; cbn.
      destruct error as [e|s]; [destruct (stackParser_parse e)|]; reflexivity.
    + intros filtered Hfilter. rewrite Hfilter. reflexivity.
Qed.

(** X11. The call of [prepareErrorFormatted] never throws, and its promise
    is rejected in two cases only, with what was thrown: the sanitizer
    throws on the merged context, or the [beforeSend] callback throws on
    the payload. *)
Theorem formatting_rejects_only_by_collaborators (c : Catcher) (error : Message)
    (ctx : option loc) (w : World T) :
  ∃ settled,
    fst (prepareErrorFormatted c error ctx w) = Normal settled ∧
    (∀ e, sanitize (mergedContext c ctx w) = Throw e → settled = Rejected e) ∧
    (∀ e, settled = Rejected e →
       sanitize (mergedContext c ctx w) = Throw e ∨
       ∃ filter payload, beforeSend c = Some filter ∧ filter payload = Throw e).
Proof.
  rewrite prepareErrorFormatted_run. cbn [fst]. eexists. split; [reflexivity|].
  unfold formatting.
  destruct (sanitize _) as [sanitized|e0]; cbn [fst].
  - split; [discriminate|]. intros e.
    unfold applyBeforeSend. destruct (beforeSend c) as [filter|].
    + destruct (filter _) as [payload|e1] eqn:Hfilter; [discriminate|].
      intros Heq. injection Heq as ->. right. eauto.
    + discriminate.
  - split; [congruence|]. intros e Heq. injection Heq as ->. left. reflexivity.
Qed.

(** ** Global events *)

Lemma formatAndSendValue_message c m addons ctx :
  formatAndSendValue c (EvValue m) addons ctx = formatAndSend c m addons ctx.
Proof. reflexivity. Qed.

Lemma handleEvent_run c event (w : World T) :
  handleEvent c event w
  = (Normal (Fulfilled tt),
     snd (formatAndSendValue c
            match event, or_value (event_error event) (event_reason event) with
            | ErrorEvent _ message, EvUndefined => EvValue (MString message)
            | _, error => error
            end None None w)).
Proof.
  unfold handleEvent, async, bind.
  destruct event as [error message|reason]; cbn [event_error event_reason].
  - destruct (or_value error EvUndefined) as [| |m];
      match goal with |- context [formatAndSendValue c ?v None None w] =>
        destruct (formatAndSendValue c v None None w) as [[p|e] w1] eqn:Hrun
      end; try reflexivity;
      exfalso; revert Hrun; unfold formatAndSendValue, async, try_catch;
      match goal with |- context [bind ?a ?k w] => destruct (bind a k w) as [[[]|e'] w2] end;
      cbn; discriminate.
  - destruct (or_value EvUndefined reason) as [| |m];
      match goal with |- context [formatAndSendValue c ?v None None w] =>
        destruct (formatAndSendValue c v None None w) as [[p|e] w1] eqn:Hrun
      end; try reflexivity;
      exfalso; revert Hrun; unfold formatAndSendValue, async, try_catch;
      match goal with |- context [bind ?a ?k w] => destruct (bind a k w) as [[[]|e'] w2] end;
      cbn; discriminate.
Qed.

(** X12. [handleEvent] on an error event never rejects. It reports the
    error of the event when that is an [Error] or a string that is not
    empty; otherwise (the error is [undefined], [null] or the empty string,
    as for an error of a script of another origin) it reports the message
    of the event, as a string. *)
Theorem handleEvent_error_event (c : Catcher) (error : EventValue)
    (message : string) (w : World T) :
  handleEvent c (ErrorEvent error message) w
  = (Normal (Fulfilled tt),
     snd (formatAndSend c
            match error with
            | EvValue (MError e) => MError e
            | EvValue (MString s) => if truthy_string s then MString s else MString message
            | EvUndefined | EvNull => MString message
            end None None w)).
Proof.
  rewrite handleEvent_run. cbn [event_error event_reason]. unfold or_value.
  destruct error as [| |[e|s]]; cbn; try reflexivity.
  destruct (truthy_string s); reflexivity.
Qed.

(** X13. [handleEvent] on a promise rejection never rejects. It reports
    the reason when that is an [Error] or a string, the empty string
    included; for a reason that is [undefined] or [null] it sends nothing:
    the [TypeError] of the formatting is logged as an internal error, and
    nothing else of the world changes. *)
Theorem handleEvent_rejection (c : Catcher) (reason : EventValue) (w : World T) :
  ∃ text,
    handleEvent c (PromiseRejectionEvent reason) w
    = (Normal (Fulfilled tt),
       match reason with
       | EvValue m => snd (formatAndSend c m None None w)
       | EvUndefined | EvNull =>
           with_logs w
             (logs w ++ [{| log_message := "Internal error ლ(´ڡ`ლ)";
                            log_level := LogError;
                            log_args := Some (JsError "TypeError" text) |}])
       end).
Proof.
  pose proof (handleEvent_run c (PromiseRejectionEvent reason) w) as Hrun.
  cbn [event_error event_reason] in Hrun. unfold or_value in Hrun. cbn in Hrun.
  destruct reason as [| |m].
  - exists "Cannot read properties of undefined". exact Hrun.
  - exists "Cannot read properties of null". exact Hrun.
  - exists "". exact Hrun.
Qed.

(** ** What sending leaves alone *)

(** X14. Neither [send] nor [handleEvent] reads or writes localStorage,
    draws a random id, registers a handler or a Vue app, or constructs a
    socket: these parts of the world, and the window, are after the call
    what they were before. *)
Theorem send_leaves_page (c : Catcher) (w : World T) :
  (∀ message ctx,
     storage (snd (send c message ctx w)) = storage w ∧
     storageOps (snd (send c message ctx w)) = storageOps w ∧
     randomUsed (snd (send c message ctx w)) = randomUsed w ∧
     listeners (snd (send c message ctx w)) = listeners w ∧
     vueApps (snd (send c message ctx w)) = vueApps w ∧
     socketsCreated (snd (send c message ctx w)) = socketsCreated w ∧
     window (snd (send c message ctx w)) = window w) ∧
  (∀ event,
     storage (snd (handleEvent c event w)) = storage w ∧
     storageOps (snd (handleEvent c event w)) = storageOps w ∧
     randomUsed (snd (handleEvent c event w)) = randomUsed w ∧
     listeners (snd (handleEvent c event w)) = listeners w ∧
     vueApps (snd (handleEvent c event w)) = vueApps w ∧
     socketsCreated (snd (handleEvent c event w)) = socketsCreated w ∧
     window (snd (handleEvent c event w)) = window w).
Proof.
  assert (Hvalue : ∀ value,
            storage (snd (formatAndSendValue c value None None w)) = storage w ∧
            storageOps (snd (formatAndSendValue c value None None w)) = storageOps w ∧
            randomUsed (snd (formatAndSendValue c value None None w)) = randomUsed w ∧
            listeners (snd (formatAndSendValue c value None None w)) = listeners w ∧
            vueApps (snd (formatAndSendValue c value None None w)) = vueApps w ∧
            socketsCreated (snd (formatAndSendValue c value None None w))
              = socketsCreated w ∧
            window (snd (formatAndSendValue c value None None w)) = window w).
  { intros [| |message]; [repeat split | repeat split |].
    rewrite formatAndSendValue_message.
    repeat split; apply formatAndSend_preserves; reflexivity. }
  split.
  - intros message ctx. repeat split; apply send_preserves; reflexivity.
  - intros event. rewrite handleEvent_run. cbn [snd]. apply Hvalue.
Qed.

(** ** The token at construction *)

(** X15. With a token and no [collectorEndpoint], the constructor throws
    what [atob] or [JSON.parse] throws on the token, and the [TypeError] of
    reading a property of [null] when the token decodes to [null]; it
    throws the error of the invalid integration token when the decoded
    value has no [integrationId] or a falsy one; otherwise it returns an
    instance and has constructed the socket for the endpoint of that
    integration id. *)
Theorem constructor_token_errors (arg : SettingsArg) (w : World T) (tok : string) :
  s_token (normalizeSettings arg) = Some tok →
  truthy_string tok = true →
  truthy_opt_string (s_collectorEndpoint (normalizeSettings arg)) = false →
  match atob tok with
  | Throw e => fst (constructor arg w) = Throw e
  | Normal raw =>
      match JSON_parse raw with
      | Throw e => fst (constructor arg w) = Throw e
      | Normal decoded =>
          match get_prop decoded "integrationId" with
          | Throw e => decoded = JNull ∧ fst (constructor arg w) = Throw e
          | Normal (Some integrationId) =>
              if truthy integrationId
              then
                (∃ c, fst (constructor arg w) = Normal c) ∧
                map collectorEndpoint (socketsCreated (snd (constructor arg w)))
                  = map collectorEndpoint (socketsCreated w)
                      ++ ["wss://" +:+ template_string integrationId
                                   +:+ ".k1.hawk.so:443/ws"]
              else
                fst (constructor arg w)
                  = Throw (JsError "Error"
                             "Invalid integration token. There is no integration ID.")
          | Normal None =>
              fst (constructor arg w)
                = Throw (JsError "Error"
                           "Invalid integration token. There is no integration ID.")
          end
      end
  end.
Proof.
  intros Htok Htruthy Hendpoint. rewrite constructor_run. cbv zeta.
  rewrite Htok. cbn [truthy_opt_string]. rewrite Htruthy. cbn [negb].
  unfold endpointOf, integrationIdOf. rewrite Hendpoint, Htok.
  change (default "undefined" (Some tok)) with tok.
  destruct (atob tok) as [raw|e]; [|reflexivity].
  destruct (JSON_parse raw) as [decoded|e]; [|reflexivity].
  destruct (get_prop decoded "integrationId") as [[v|]|e] eqn:Hprop.
  - destruct (truthy v); [|reflexivity]. cbn [fst snd].
    split; [eexists; reflexivity|].
    rewrite afterTransport_socketsCreated, userStep_socketsCreated, map_app.
    reflexivity.
  - reflexivity.
  - split; [|reflexivity]. destruct decoded; cbn in Hprop; congruence.
Qed.

(** X16. With a token that is not empty and a [collectorEndpoint] that is
    not empty, the constructor does not decode the token: whatever the
    token is, it returns an instance, with the token as it is and the
    socket of that endpoint as its transport. *)
Theorem explicit_endpoint_skips_decoding (arg : SettingsArg) (w : World T)
    (endpoint : string) :
  truthy_opt_string (s_token (normalizeSettings arg)) = true →
  s_collectorEndpoint (normalizeSettings arg) = Some endpoint →
  truthy_string endpoint = true →
  ∃ c,
    fst (constructor arg w) = Normal c ∧
    token c = s_token (normalizeSettings arg) ∧
    transport c = Some (length (sockets w)) ∧
    map collectorEndpoint (socketsCreated (snd (constructor arg w)))
      = map collectorEndpoint (socketsCreated w) ++ [endpoint].
Proof.
  intros Htoken Hendpoint Htruthy. rewrite constructor_run. cbv zeta.
  rewrite Htoken. cbn [negb]. unfold endpointOf. rewrite Hendpoint. cbn.
  rewrite Htruthy. cbn [fst snd]. eexists. split; [reflexivity|].
  destruct (userStep_page (normalizeSettings arg) w) as (Hs & _ & _).
  rewrite Hs, afterTransport_socketsCreated, userStep_socketsCreated, map_app.
  repeat split.
Qed.

End CatcherExtras.

(** * The catcher on concrete pages *)

Import Browser.

Example constructor_demo :
  constructor (SettingsToken goodToken) freshPage = (Normal demoCatcher, demoPage).
Proof. vm_compute. reflexivity. Qed.

Example constructor_offline :
  fst (constructor (SettingsObject offlineSettings) freshPage) = Normal demoCatcher.
Proof. vm_compute. reflexivity. Qed.

(** A transport that rejects: [send] completes, the rejection is logged. *)
Lemma send_never_throws_witness :
  fst (send demoCatcher (MString "Reason message") None offlinePage) = Normal tt ∧
  logs (snd (sendErrorFormatted demoCatcher demoMessage offlinePage))
    = logs offlinePage
        ++ [{| log_message := "WebSocket sending error"; log_level := LogError;
               log_args := Some (JsError "Error" "Connection is permanently closed") |}].
Proof.
  destruct (send_never_throws demoCatcher (MString "Reason message") None offlinePage)
    as (Hnormal & Hrejected & _).
  split; [exact Hnormal|].
  eapply Hrejected; [reflexivity | vm_compute; reflexivity | vm_compute; reflexivity].
Defined.

(** A token without an integration id: the constructor throws. *)
Lemma invalid_token_fails_fast_witness :
  fst (constructor (SettingsToken tokenWithoutId) freshPage)
    = Throw (JsError "Error" "Invalid integration token. There is no integration ID.") ∧
  socketsCreated (snd (constructor (SettingsToken tokenWithoutId) freshPage)) = [].
Proof.
  destruct (invalid_token_fails_fast (SettingsToken tokenWithoutId) freshPage)
    as (Hinvalid & _ & _).
  edestruct (Hinvalid tokenWithoutId) as (Hthrow & _ & Hnone);
    [ reflexivity | reflexivity | vm_compute; reflexivity | vm_compute; reflexivity
    | left; reflexivity | reflexivity | ].
  split; [exact Hthrow | exact Hnone].
Defined.

(** An empty integration id throws as well. *)
Example empty_integration_id_throws :
  fst (constructor (SettingsToken tokenWithEmptyId) freshPage)
    = Throw (JsError "Error" "Invalid integration token. There is no integration ID.").
Proof. vm_compute. reflexivity. Qed.

(** Without a token the constructor does not throw: it returns an instance
    that has no transport, after a warning. *)
Lemma missing_token_does_not_throw :
  fst (constructor (SettingsObject settingsWithoutToken) freshPage)
    = Normal {| version := "3.0.0"; type := "errors/javascript"; token := None;
                debug := false; release := None;
                user := Some {| user_id := "generated-0"; user_name := None;
                                user_url := None; user_image := None |};
                context := None; beforeSend := None; transport := None |} ∧
  socketsCreated (snd (constructor (SettingsObject settingsWithoutToken) freshPage)) = [] ∧
  logs (snd (constructor (SettingsObject settingsWithoutToken) freshPage))
    = [{| log_message :=
            "Integration Token is missed. You can get it on https://hawk.so at Project Settings.";
          log_level := LogWarn; log_args := None |}].
Proof. vm_compute. repeat split. Qed.

(** The endpoint built from the token, also when the settings hold an
    empty endpoint; the closure the socket gets. *)
Lemma endpoint_fixed_at_construction_witness :
  socketsCreated (snd (constructor (SettingsToken goodToken) freshPage))
    = [{| collectorEndpoint := "wss://abc123.k1.hawk.so:443/ws";
          reconnectionAttempts := None; reconnectionTimeout := None;
          onClose := ConnectionLostNotice |}] ∧
  socketsCreated (snd (constructor (SettingsObject settingsWithEmptyEndpoint) freshPage))
    = [{| collectorEndpoint := "wss://abc123.k1.hawk.so:443/ws";
          reconnectionAttempts := None; reconnectionTimeout := None;
          onClose := ConnectionLostNotice |}] ∧
  socketsCreated (snd (send demoCatcher (MError errorWithoutStack) None demoPage))
    = socketsCreated demoPage.
Proof.
  destruct (endpoint_fixed_at_construction (SettingsToken goodToken) freshPage eq_refl)
    as (_ & Htoken & _ & Hlater & _).
  destruct (endpoint_fixed_at_construction (SettingsObject settingsWithEmptyEndpoint)
              freshPage eq_refl) as (_ & Hempty & _).
  split; [|split].
  - refine (Htoken goodToken _ _ "abc123" eq_refl eq_refl _ _ _ eq_refl);
      vm_compute; reflexivity.
  - refine (Hempty goodToken _ _ "abc123" eq_refl eq_refl _ _ _ eq_refl);
      vm_compute; reflexivity.
  - apply Hlater.
Defined.

(** An [onClose] on the settings does not reach the socket. *)
Lemma onClose_not_from_settings :
  s_onClose settingsWithOnClose = Some (UserOnClose "notifyOperations") ∧
  socketsCreated (snd (constructor (SettingsObject settingsWithOnClose) freshPage))
    = [{| collectorEndpoint := "wss://abc123.k1.hawk.so:443/ws";
          reconnectionAttempts := Some 5%Z; reconnectionTimeout := Some 1000%Z;
          onClose := ConnectionLostNotice |}].
Proof. vm_compute. split; reflexivity. Qed.

(** The first construction on a page stores the generated id; the second
    finds it. *)
Example user_id_generated_then_reused :
  storageOps demoPage = [GetItem "hawk-user-id"; SetItem "hawk-user-id" "generated-0"] ∧
  storageOps (snd (constructor (SettingsToken goodToken) demoPage))
    = [GetItem "hawk-user-id"; SetItem "hawk-user-id" "generated-0";
       GetItem "hawk-user-id"] ∧
  fst (getGeneratedUser demoPage)
    = Normal {| user_id := "generated-0"; user_name := None; user_url := None;
                user_image := None |}.
Proof. vm_compute. repeat split. Qed.


(** A [beforeSend] that edits the user of the event it is given and then
    throws: the event is not sent, and an event sent afterwards carries the
    edited user. *)
Example callback_edit_outlives_failure :
  fst (Receiver.prepareErrorFormatted (Some tamperingMethod) (MString "secret") None
         (demoCatcher, demoPage))
    = Normal (Rejected (JsError "Error" "beforeSend failed")) ∧
  map (λ s, map (λ m, (ev_title (msg_payload m), user_id <$> ev_user (msg_payload m)))
              (rs_received s))
      (sockets (snd (snd (Receiver.send (Some tamperingMethod) (MString "next") None
                            (snd (Receiver.send (Some tamperingMethod) (MString "secret")
                                    None (demoCatcher, demoPage)))))))
    = [[("next", Some "tampered")]] ∧
  map (λ s, map (λ m, (ev_title (msg_payload m), user_id <$> ev_user (msg_payload m)))
              (rs_received s))
      (sockets (snd (snd (Receiver.send (Some tamperingMethod) (MString "next") None
                            (demoCatcher, demoPage)))))
    = [[("next", Some "generated-0")]].
Proof. vm_compute. repeat split. Qed.


(** A rejected promise with a plain string as its reason. *)
Lemma formatted_title_type_backtrace_witness :
  ∃ m,
    fst (prepareErrorFormatted demoCatcher (MString "Reason message") None demoPage)
      = Normal (Fulfilled m) ∧
    ev_title (msg_payload m) = "Reason message" ∧
    ev_type (msg_payload m) = None ∧
    ev_backtrace (msg_payload m) = None.
Proof.
  destruct (fst (prepareErrorFormatted demoCatcher (MString "Reason message") None
                   demoPage)) as [[m|e]|e] eqn:Hrun.
  - exists m. split; [reflexivity|].
    destruct (formatted_title_type_backtrace demoCatcher (MString "Reason message")
                None demoPage m Hrun)
      as (payload & _ & Hsame & Htitle & Htype & _ & _ & Hbacktrace & _).
    rewrite (Hsame eq_refl). split; [exact Htitle|]. split; [exact Htype | exact Hbacktrace].
  - exfalso. vm_compute in Hrun. discriminate Hrun.
  - exfalso. vm_compute in Hrun. discriminate Hrun.
Defined.

(** A [beforeSend] that gives the event another title, type and
    backtrace: the formatted event has those. *)
Lemma beforeSend_replaces_title :
  match fst (prepareErrorFormatted retitlingCatcher (MString "Reason message") None
               demoPage) with
  | Normal (Fulfilled m) =>
      Some (ev_title (msg_payload m), ev_type (msg_payload m),
            ev_backtrace (msg_payload m))
  | _ => None
  end
  = Some ("filtered", Some "Custom", Some []).
Proof. vm_compute. reflexivity. Qed.





(** * The further properties on concrete pages *)

Import Scenarios.

Example demoPage_sockets : sockets demoPage = [demoSocketWith []].
Proof. vm_compute. reflexivity. Qed.

(** A key given twice: the last value is kept. *)
Lemma getGetParams_last_pair_wins_witness :
  ∃ params,
    fst (getGetParams pageWithQuery) = Normal (Some params) ∧
    params !! "page" = Some (Some "3") ∧
    params !! "debug" = Some None ∧
    params !! "sort" = None.
Proof.
  destruct (getGetParams_last_pair_wins pageWithQuery eq_refl) as (params & Hrun & Hlookup).
  exists params. split; [exact Hrun|].
  rewrite !Hlookup by discriminate. vm_compute. repeat split.
Defined.

(** A value with an equals sign is cut at it. *)
Lemma addGetParam_forms_witness :
  addGetParam ∅ "redirect" = <[ "redirect" := None ]> ∅ ∧
  addGetParam ∅ ("redirect" +:+ String "="%char "home")
    = <[ "redirect" := Some "home" ]> ∅ ∧
  addGetParam ∅ ("redirect" +:+ String "="%char ("home" +:+ String "="%char "1"))
    = <[ "redirect" := Some "home" ]> ∅.
Proof.
  apply (addGetParam_forms ∅ "redirect" "home" "1"); [discriminate | reflexivity..].
Defined.

(** A second catcher on the page of the first has its user. *)
Lemma user_id_reused_witness :
  ∃ c2 w2,
    constructor (SettingsObject offlineSettings) demoPage = (Normal c2, w2) ∧
    user c2 = user demoCatcher ∧
    storageOps w2 = storageOps demoPage ++ [GetItem "hawk-user-id"].
Proof.
  destruct (constructor (SettingsObject offlineSettings) demoPage) as [[c2|e] w2] eqn:Hsecond.
  - exists c2, w2. split; [reflexivity|].
    destruct (user_id_reused (SettingsToken goodToken) (SettingsObject offlineSettings)
                freshPage demoPage w2 demoCatcher c2
                {| user_id := "generated-0"; user_name := None; user_url := None;
                   user_image := None |}
                eq_refl eq_refl constructor_demo Hsecond eq_refl eq_refl)
      as (Huser & _ & Hops).
    split; [exact Huser | exact Hops].
  - exfalso. vm_compute in Hsecond. discriminate Hsecond.
Defined.

(** A string sent by the demo catcher reaches its socket. *)
Lemma send_hands_over_witness :
  ∃ m,
    fst (prepareErrorFormatted demoCatcher (MString "Reason message") None demoPage)
      = Normal (Fulfilled m) ∧
    sockets (snd (send demoCatcher (MString "Reason message") None demoPage))
      = [demoSocketWith [m]] ∧
    console (snd (send demoCatcher (MString "Reason message") None demoPage)) = [m] ∧
    logs (snd (send demoCatcher (MString "Reason message") None demoPage)) = [].
Proof.
  destruct (fst (prepareErrorFormatted demoCatcher (MString "Reason message") None
                   demoPage)) as [[m|e]|e] eqn:Hrun.
  - exists m. split; [reflexivity|].
    destruct (send_hands_over demoCatcher (MString "Reason message") None demoPage m 0
                (demoSocketWith []) Hrun eq_refl eq_refl)
      as (Hsockets & Hconsole & Hlogs).
    rewrite Hsockets, Hconsole, Hlogs. vm_compute. repeat split.
  - exfalso. vm_compute in Hrun. discriminate Hrun.
  - exfalso. vm_compute in Hrun. discriminate Hrun.
Defined.

(** A catcher without a token: the event gets to the console only. *)
Lemma send_without_token_witness :
  ∃ c w1,
    constructor (SettingsObject settingsWithoutToken) freshPage = (Normal c, w1) ∧
    transport c = None ∧
    fst (send c (MString "Reason message") None w1) = Normal tt ∧
    sockets (snd (send c (MString "Reason message") None w1)) = sockets w1.
Proof.
  destruct (constructor (SettingsObject settingsWithoutToken) freshPage)
    as [[c|e] w1] eqn:Hc.
  - exists c, w1. split; [reflexivity|].
    destruct (send_without_token (SettingsObject settingsWithoutToken) freshPage w1 c
                Hc eq_refl) as (Hnone & text & Hsend).
    split; [exact Hnone|].
    destruct (Hsend (MString "Reason message") None w1) as (Hnormal & Hsockets & _).
    split; [exact Hnormal | exact Hsockets].
  - exfalso. vm_compute in Hc. discriminate Hc.
Defined.


(** The payload of a string sent from the demo page. *)
Lemma event_payload_witness :
  ∃ m,
    fst (prepareErrorFormatted demoCatcher (MString "Reason message") None demoPage)
      = Normal (Fulfilled m) ∧
    ev_release (msg_payload m) = None ∧
    ev_user (msg_payload m) = user demoCatcher ∧
    addons_url (ev_addons (msg_payload m)) = "https://example.com/app?page=2&debug" ∧
    addons_RAW_EVENT_DATA (ev_addons (msg_payload m)) = None.
Proof.
  destruct (fst (prepareErrorFormatted demoCatcher (MString "Reason message") None
                   demoPage)) as [[m|e]|e] eqn:Hrun.
  - exists m. split; [reflexivity|].
    destruct (event_payload demoCatcher (MString "Reason message") None demoPage m Hrun)
      as (payload & Hfilter & Hrelease & Huser & _ & _ & _ & _ & Hurl & _ & Hraw & _).
    cbn in Hfilter. injection Hfilter as <-.
    split; [exact Hrelease|]. split; [exact Huser|]. split; [exact Hurl | exact Hraw].
  - exfalso. vm_compute in Hrun. discriminate Hrun.
  - exfalso. vm_compute in Hrun. discriminate Hrun.
Defined.

(** An error with a stack the parser reads, and one it cannot read: both
    are formatted. *)
Lemma event_backtrace_witness :
  (∃ m,
     fst (prepareErrorFormatted demoCatcher (MError errorWithStack) None demoPage)
       = Normal (Fulfilled m) ∧
     ev_backtrace (msg_payload m)
       = Some [{| frame_file := "app.js"; frame_line := 1; frame_column := 1;
                  frame_function := None |}] ∧
     logs (snd (prepareErrorFormatted demoCatcher (MError errorWithStack) None demoPage))
       = logs demoPage) ∧
  (∃ m,
     fst (prepareErrorFormatted demoCatcher (MError errorWithoutStack) None demoPage)
       = Normal (Fulfilled m) ∧
     ev_backtrace (msg_payload m) = None ∧
     logs (snd (prepareErrorFormatted demoCatcher (MError errorWithoutStack) None demoPage))
       = logs demoPage
           ++ [{| log_message := "Can not parse stack:"; log_level := LogWarn;
                  log_args := Some (JsError "Error" "Cannot parse given Error object") |}]).
Proof.
  split.
  - destruct (event_backtrace demoCatcher (MError errorWithStack) None demoPage)
      as [Hbuilt Hfulfils].
    destruct (Hfulfils ∅ eq_refl) as (_ & _ & Hfulfilled).
    pose proof (Hfulfilled _ eq_refl) as Hrun.
    eexists. split; [exact Hrun|].
    destruct (Hbuilt _ Hrun) as (payload & Hfilter & Hbacktrace & Hlogs).
    cbn in Hfilter. injection Hfilter as <-.
    split; [exact Hbacktrace | exact Hlogs].
  - destruct (event_backtrace demoCatcher (MError errorWithoutStack) None demoPage)
      as [Hbuilt Hfulfils].
    destruct (Hfulfils ∅ eq_refl) as (_ & _ & Hfulfilled).
    pose proof (Hfulfilled _ eq_refl) as Hrun.
    eexists. split; [exact Hrun|].
    destruct (Hbuilt _ Hrun) as (payload & Hfilter & Hbacktrace & Hlogs).
    cbn in Hfilter. injection Hfilter as <-.
    split; [exact Hbacktrace | exact Hlogs].
Defined.

(** A pair of the query with the key [__proto__] makes no parameter. *)
Example getGetParams_proto_pair :
  fst (getGetParams pageWithProtoQuery) = Normal (Some {[ "page" := Some "2" ]}).
Proof. vm_compute. reflexivity. Qed.

(** An error of a script of another origin, and a rejection without a
    reason. *)
Example handleEvent_script_error :
  map (λ s, map (λ m, (ev_title (msg_payload m), ev_type (msg_payload m)))
              (rs_received s))
      (sockets (snd (handleEvent demoCatcher (ErrorEvent EvUndefined "Script error.")
                       demoPage)))
    = [[("Script error.", None)]] ∧
  sockets (snd (handleEvent demoCatcher (PromiseRejectionEvent EvUndefined) demoPage))
    = sockets demoPage.
Proof. vm_compute. split; reflexivity. Qed.

(** A token that is no base64 text; one whose text is [null]. *)
Lemma constructor_token_errors_witness :
  fst (constructor (SettingsToken "not a token!") freshPage)
    = Throw (JsError "InvalidCharacterError" "The string is not correctly encoded.") ∧
  fst (constructor (SettingsToken tokenOfNull) freshPage)
    = Throw (JsError "TypeError" "Cannot read properties of null").
Proof.
  split.
  - exact (constructor_token_errors (SettingsToken "not a token!") freshPage
             "not a token!" eq_refl eq_refl eq_refl).
  - exact (proj2 (constructor_token_errors (SettingsToken tokenOfNull) freshPage
                    tokenOfNull eq_refl eq_refl eq_refl)).
Defined.

(** The same token, with an endpoint in the settings. *)
Lemma explicit_endpoint_skips_decoding_witness :
  ∃ c,
    fst (constructor (SettingsObject settingsWithEndpoint) freshPage) = Normal c ∧
    token c = Some "not a token!" ∧
    transport c = Some 0 ∧
    map collectorEndpoint
        (socketsCreated (snd (constructor (SettingsObject settingsWithEndpoint) freshPage)))
      = ["wss://collector.example.com/ws"].
Proof.
  exact (explicit_endpoint_skips_decoding (SettingsObject settingsWithEndpoint) freshPage
           "wss://collector.example.com/ws" eq_refl eq_refl eq_refl).
Defined.
